(** * fastapi_repository: the filter compiler and the CRUD surface of
      [BaseRepository] (src/fastapi_repository/base.py)

    The development embeds the repository the way base.py writes it:

    - keyword filters are ordered association lists (a Python dict keeps
      insertion order, and the first key that fails decides the error);
    - the predicates the Operator Table builds are a syntax tree, one
      constructor per SQLAlchemy call the lambdas make;
    - the mapped class is a descriptor answering [getattr], the test
      [hasattr(attr, "property")], [attr.property.mapper.class_] and
      [attr.any(..)]; the expressions built on an attribute are those of a
      column;
    - the session is explicit state: the table of the repository's model
      and a log of everything that reached the session;
    - an operation is a function from a session to an outcome (a raised
      exception or a value) and the session it leaves behind. *)

From Stdlib Require Import List Permutation String Ascii ZArith Bool Lia DecimalString.
Import ListNotations.
Local Open Scope list_scope.
Local Open Scope string_scope.

Set Implicit Arguments.
#[local] Set Warnings "-register-all".

(** ** Python values and the string operations base.py relies on *)

Module Py.

(** The values that reach the repository as filter values, ids and field
    values.  A UUID id is carried as its text ([VStr]). *)
Inductive value : Type :=
| VNone
| VBool (b : bool)
| VInt (z : Z)
| VStr (s : string)
| VList (items : list value)
| VTuple (items : list value).

(** [isinstance(val, list)] *)
Definition isinstance_list (val : value) : bool :=
  match val with VList _ => true | _ => false end.

(** Python's notion of a sequence among the modelled values
    (collections.abc.Sequence): lists, tuples and strings. *)
Definition is_sequence (val : value) : bool :=
  match val with VList _ | VTuple _ | VStr _ => true | _ => false end.

Definition string_of_Z (z : Z) : string := NilZero.string_of_int (Z.to_int z).

(** [repr(v)].  A string is rendered between single quotes; Python also
    escapes quotes and unprintable characters inside it, which is not
    modelled. *)
Fixpoint repr (v : value) : string :=
  let fix join (l : list value) : string :=
    match l with
    | [] => EmptyString
    | x :: xs => match xs with [] => repr x | _ => repr x ++ ", " ++ join xs end
    end in
  match v with
  | VNone => "None"
  | VBool true => "True"
  | VBool false => "False"
  | VInt z => string_of_Z z
  | VStr s => "'" ++ s ++ "'"
  | VList l => "[" ++ join l ++ "]"
  | VTuple [x] => "(" ++ repr x ++ ",)"
  | VTuple l => "(" ++ join l ++ ")"
  end.

(** [str(v)], what an f-string interpolates. *)
Definition str (v : value) : string :=
  match v with VStr s => s | _ => repr v end.

(** [repr] of a keyword dict, as in [f"{search_params}"]. *)
Fixpoint repr_items (d : list (string * value)) : string :=
  match d with
  | [] => EmptyString
  | (k, v) :: rest =>
      let item := "'" ++ k ++ "': " ++ repr v in
      match rest with [] => item | _ => item ++ ", " ++ repr_items rest end
  end.

Definition repr_dict (d : list (string * value)) : string :=
  "{" ++ repr_items d ++ "}".

(** [c.lower()] on one character: only the ASCII capitals change. *)
Definition lower_ascii (c : ascii) : ascii :=
  let n := nat_of_ascii c in
  if (65 <=? n)%nat && (n <=? 90)%nat then ascii_of_nat (n + 32) else c.

(** [s.lower()] *)
Fixpoint lower (s : string) : string :=
  match s with
  | EmptyString => EmptyString
  | String c rest => String (lower_ascii c) (lower rest)
  end.

Definition is_underscore (c : ascii) : bool := Ascii.eqb c "_".

(** ["__" in key] *)
Fixpoint contains_dunder (key : string) : bool :=
  match key with
  | EmptyString => false
  | String c rest =>
      match rest with
      | EmptyString => false
      | String c' _ => (is_underscore c && is_underscore c') || contains_dunder rest
      end
  end.

(** [key.split("__")]: the separator is matched left to right, so
    ["a___b"] splits into ["a"] and ["_b"]. *)
Fixpoint split_from (current : string) (s : string) : list string :=
  match s with
  | EmptyString => [current]
  | String c rest =>
      match rest with
      | EmptyString => [current ++ String c EmptyString]
      | String c' rest' =>
          if is_underscore c && is_underscore c'
          then current :: split_from EmptyString rest'
          else split_from (current ++ String c EmptyString) rest
      end
  end.

Definition split_dunder (key : string) : list string := split_from EmptyString key.

(** A dict lookup by key. *)
Fixpoint get {A : Type} (d : list (string * A)) (k : string) : option A :=
  match d with
  | [] => None
  | (k', a) :: rest => if String.eqb k' k then Some a else get rest k
  end.

(** [d[k] = a] on an insertion-ordered dict. *)
Fixpoint set {A : Type} (d : list (string * A)) (k : string) (a : A) : list (string * A) :=
  match d with
  | [] => [(k, a)]
  | (k', a') :: rest =>
      if String.eqb k' k then (k', a) :: rest else (k', a') :: set rest k a
  end.

(** The exceptions base.py raises or lets through. *)
Inductive exception : Type :=
| ValueError (msg : string)
| TypeError (msg : string)
| IndexError (msg : string)
| KeyError (msg : string)
| AttributeError (msg : string)
| NoResultFound (msg : string)          (* sqlalchemy.exc *)
| InvalidRequestError (msg : string).   (* sqlalchemy.exc *)

End Py.
Import Py.

(** ** The mapping layer: what base.py observes of a mapped class *)

Module Mapping.

(** A class attribute as [getattr(cls, name, None)] returns it.
    - [Column]: an instrumented column attribute; it has a [.property]
      (a column property), and that property has no [.mapper];
    - [Relationship target]: an instrumented relationship attribute that
      holds a collection (one-to-many, many-to-many);
      [.property.mapper.class_] is the target class;
    - [ScalarRelationship target]: an instrumented relationship attribute
      that holds one object (many-to-one, one-to-one); it has the same
      [.property.mapper.class_], and the mapping layer refuses [.any(..)]
      on it;
    - [Plain]: any other attribute of the class (a method, a hybrid
      expression): it has no [.property].

    The comparison and pattern operators of base.py, and the ordering, are
    modelled on what they build for a [Column].  What the mapping layer
    answers when they are applied to a relationship or to a plain attribute
    (it refuses most of them) is its own and is not modelled. *)
Inductive attribute : Type :=
| Column
| Relationship (target : mapped_class)
| ScalarRelationship (target : mapped_class)
| Plain
with mapped_class : Type :=
| MappedClass (name : string) (attributes : list (string * attribute)).

(** [cls.__name__] *)
Definition __name__ (cls : mapped_class) : string :=
  match cls with MappedClass name _ => name end.

Definition attributes (cls : mapped_class) : list (string * attribute) :=
  match cls with MappedClass _ attrs => attrs end.

(** [getattr(cls, name, None)]: [None] stands for Python's [None]. *)
Definition getattr (cls : mapped_class) (name : string) : option attribute :=
  Py.get (attributes cls) name.

(** [hasattr(attr, "property")] *)
Definition hasattr_property (attr : attribute) : bool :=
  match attr with
  | Column | Relationship _ | ScalarRelationship _ => true
  | Plain => false
  end.

(** The text of the AttributeError Python raises for [.mapper] on a column
    property; the wording is the mapping library's and may differ between
    its versions. *)
Definition no_mapper_message : string :=
  "'ColumnProperty' object has no attribute 'mapper'".

(** [attr.property.mapper.class_], for an attribute that has a [.property]. *)
Definition property_mapper_class_ (attr : attribute) : exception + mapped_class :=
  match attr with
  | Relationship target | ScalarRelationship target => inr target
  | Column => inl (AttributeError no_mapper_message)
  | Plain => inl (AttributeError "object has no attribute 'property'")
  end.

(** A reference to an attribute of a class inside a SQL expression: the
    class it was taken from and its key. *)
Record column : Type := { col_class : string; col_key : string }.

Definition column_of (cls : mapped_class) (key : string) : column :=
  {| col_class := __name__ cls; col_key := key |}.

End Mapping.
Import Mapping.

(** ** SQL expressions and the Operator Table *)

(** One constructor per expression the lambdas of [OPERATORS] and
    [__get_conditions] build. *)
Inductive predicate : Type :=
| Eq (col : column) (val : value)              (* col == val *)
| Ilike (col : column) (pattern : value)       (* col.ilike(pattern) *)
| Contains (col : column) (val : value)        (* col.contains(val) *)
| In_ (col : column) (candidates : list value) (* col.in_(candidates) *)
| Gt (col : column) (val : value)              (* col > val *)
| Ge (col : column) (val : value)              (* col >= val *)
| Lt (col : column) (val : value)              (* col < val *)
| Le (col : column) (val : value)              (* col <= val *)
| Startswith (col : column) (val : value)      (* col.startswith(val) *)
| Endswith (col : column) (val : value)        (* col.endswith(val) *)
| Any (rel : column) (criterion : predicate).  (* rel.any(criterion) *)

(** [rel_attr.any(criterion)], for an attribute whose [.property] has a
    [.mapper] (no other attribute reaches the call): an EXISTS over the
    related rows for a collection; for a relationship to one object the
    mapping layer raises. *)
Definition any_ (rel_attr : attribute) (rel : column) (criterion : predicate)
  : exception + predicate :=
  match rel_attr with
  | ScalarRelationship _ =>
      inl (InvalidRequestError "'any()' not implemented for scalar attributes. Use has().")
  | _ => inr (Any rel criterion)
  end.

(** The module-level dict [OPERATORS], in source order. *)
Definition OPERATORS : list (string * (column -> value -> predicate)) :=
  [ ("exact", fun col val => Eq col val);
    ("iexact", fun col val => Ilike col val);
    ("contains", fun col val => Contains col val);
    ("icontains", fun col val => Ilike col (VStr ("%" ++ Py.str val ++ "%")));
    ("in", fun col val =>
             match val with
             | VList items => In_ col items
             | _ => In_ col [val]
             end);
    ("gt", fun col val => Gt col val);
    ("gte", fun col val => Ge col val);
    ("lt", fun col val => Lt col val);
    ("lte", fun col val => Le col val);
    ("startswith", fun col val => Startswith col val);
    ("istartswith", fun col val => Ilike col (VStr (Py.str val ++ "%")));
    ("endswith", fun col val => Endswith col val);
    ("iendswith", fun col val => Ilike col (VStr ("%" ++ Py.str val))) ].

(** [name in OPERATORS] *)
Definition in_OPERATORS (name : string) : bool :=
  match Py.get OPERATORS name with Some _ => true | None => false end.

(** [OPERATORS[op](column, value)] *)
Definition apply_operator (op : string) (col : column) (val : value)
  : exception + predicate :=
  match Py.get OPERATORS op with
  | Some f => inr (f col val)
  | None => inl (KeyError op)
  end.

(** ** The filter compiler, [__get_conditions] *)

Definition no_attribute (cls : mapped_class) (name : string) : exception :=
  AttributeError (__name__ cls ++ " has no attribute '" ++ name ++ "'").

Definition no_relationship (cls : mapped_class) (name : string) : exception :=
  AttributeError (__name__ cls ++ " has no relationship '" ++ name ++ "'").

(** Lines 237-240: the segments of the key and the operator, after the last
    segment was popped when it is a key of [OPERATORS]. *)
Definition parts_and_op (key : string) : list string * string :=
  let parts := split_dunder key in
  if in_OPERATORS (last parts EmptyString) then (removelast parts, last parts EmptyString)
  else (parts, "exact").

(** The body of the loop of [__get_conditions] for one [key, value]. *)
Definition condition_for (model : mapped_class) (key : string) (val : value)
  : exception + predicate :=
  if contains_dunder key then
    let (parts, op) := parts_and_op key in
    match parts with
    | [] => inl (IndexError "list index out of range")
    | [field] =>
        (* Simple column: foo__icontains=bar *)
        match getattr model field with
        | None => inl (no_attribute model field)
        | Some _ => apply_operator op (column_of model field) val
        end
    | rel :: field :: _ =>
        (* One-hop relationship: rel__field__op=value *)
        match getattr model rel with
        | None => inl (no_relationship model rel)
        | Some rel_attr =>
            if negb (hasattr_property rel_attr) then inl (no_relationship model rel)
            else
              match property_mapper_class_ rel_attr with
              | inl e => inl e
              | inr target_cls =>
                  match getattr target_cls field with
                  | None => inl (no_attribute target_cls field)
                  | Some _ =>
                      (* the argument is evaluated before [any] is called *)
                      match apply_operator op (column_of target_cls field) val with
                      | inl e => inl e
                      | inr criterion => any_ rel_attr (column_of model rel) criterion
                      end
                  end
              end
        end
    end
  else
    match getattr model key with
    | None => inl (no_attribute model key)
    | Some _ => inr (Eq (column_of model key) val)
    end.

(** [__get_conditions], given the keyword dict [search_params]: the keys in
    insertion order; the first key that raises ends the loop. *)
Fixpoint __get_conditions (model : mapped_class) (search_params : list (string * value))
  : exception + list predicate :=
  match search_params with
  | [] => inr []
  | (key, val) :: rest =>
      match condition_for model key val with
      | inl e => inl e
      | inr condition =>
          match __get_conditions model rest with
          | inl e => inl e
          | inr conditions => inr (condition :: conditions)
          end
      end
  end.

(** ** The backing store: a reference semantics for the compiled queries

    The engine behind the session is outside base.py.  It is modelled by the
    meaning the expressions have on rows: equality and membership compare
    values structurally, the pattern operators are LIKE with [%] and [_]
    (case folded for [ilike]), an ordering comparison holds only between two
    values of one comparable type.  The engine's NULL rules and collations
    are not modelled. *)

Module Store.

(** LIKE: [%] matches any run of characters, [_] exactly one. *)
Fixpoint like_match (pattern : string) : string -> bool :=
  match pattern with
  | EmptyString => fun s => match s with EmptyString => true | _ => false end
  | String p pattern' =>
      if Ascii.eqb p "%" then
        fix skip (s : string) : bool :=
          like_match pattern' s
          || match s with EmptyString => false | String _ s' => skip s' end
      else if Ascii.eqb p "_" then
        fun s => match s with EmptyString => false | String _ s' => like_match pattern' s' end
      else
        fun s =>
          match s with
          | EmptyString => false
          | String c s' => Ascii.eqb p c && like_match pattern' s'
          end
  end.

Fixpoint value_eqb (a b : value) : bool :=
  let fix all2 (l1 l2 : list value) : bool :=
    match l1, l2 with
    | [], [] => true
    | x :: l1', y :: l2' => value_eqb x y && all2 l1' l2'
    | _, _ => false
    end in
  match a, b with
  | VNone, VNone => true
  | VBool x, VBool y => Bool.eqb x y
  | VInt x, VInt y => Z.eqb x y
  | VStr x, VStr y => String.eqb x y
  | VList x, VList y => all2 x y
  | VTuple x, VTuple y => all2 x y
  | _, _ => false
  end.

(** The order between two values of one comparable type. *)
Definition value_compare (a b : value) : option comparison :=
  match a, b with
  | VInt x, VInt y => Some (Z.compare x y)
  | VStr x, VStr y => Some (String.compare x y)
  | VBool x, VBool y => Some (Z.compare (Z.b2z x) (Z.b2z y))
  | _, _ => None
  end.

(** The fields of one stored row, by column key. *)
Definition fields_t : Type := list (string * value).

(** The value a row has in a column; a row without the key reads as NULL. *)
Definition field_value (fields : fields_t) (col : column) : value :=
  match Py.get fields (col_key col) with Some v => v | None => VNone end.

(** The meaning of an expression on the fields of one row.  [Any] needs the
    related rows and is given below. *)
Definition holds_on_fields (fields : fields_t) (p : predicate) : bool :=
  match p with
  | Eq col val => value_eqb (field_value fields col) val
  | Ilike col pattern =>
      match field_value fields col, pattern with
      | VStr s, VStr pat => like_match (lower pat) (lower s)
      | _, _ => false
      end
  | Contains col val =>
      match field_value fields col, val with
      | VStr s, VStr sub => like_match ("%" ++ sub ++ "%") s
      | _, _ => false
      end
  | In_ col candidates => existsb (value_eqb (field_value fields col)) candidates
  | Gt col val =>
      match value_compare (field_value fields col) val with
      | Some Datatypes.Gt => true | _ => false end
  | Ge col val =>
      match value_compare (field_value fields col) val with
      | Some Datatypes.Gt | Some Datatypes.Eq => true | _ => false end
  | Lt col val =>
      match value_compare (field_value fields col) val with
      | Some Datatypes.Lt => true | _ => false end
  | Le col val =>
      match value_compare (field_value fields col) val with
      | Some Datatypes.Lt | Some Datatypes.Eq => true | _ => false end
  | Startswith col val =>
      match field_value fields col, val with
      | VStr s, VStr prefix => like_match (prefix ++ "%") s
      | _, _ => false
      end
  | Endswith col val =>
      match field_value fields col, val with
      | VStr s, VStr suffix => like_match ("%" ++ suffix) s
      | _, _ => false
      end
  | Any _ _ => false
  end.

(** A stored row of the repository's model: the identity of the instance
    the session loads for it, its fields, and, per relationship key, the
    fields of the rows related to it. *)
Record row : Type := {
  oid : nat;
  fields : fields_t;
  related : list (string * list fields_t)
}.

Definition related_rows (r : row) (rel : column) : list fields_t :=
  match Py.get (related r) (col_key rel) with Some rows => rows | None => [] end.

(** The meaning of a condition on a row of the model; [rel.any(criterion)]
    holds when some related row satisfies the criterion. *)
Definition holds (r : row) (p : predicate) : bool :=
  match p with
  | Any rel criterion =>
      existsb (fun child => holds_on_fields child criterion) (related_rows r rel)
  | _ => holds_on_fields (fields r) p
  end.

(** A WHERE clause over the conditions: every condition holds. *)
Definition matches (conditions : list predicate) (r : row) : bool :=
  forallb (holds r) conditions.

(** Ordering of the values of a column for ORDER BY: NULL first, then
    booleans, integers, strings; the rest compare equal. *)
Definition rank (v : value) : nat :=
  match v with
  | VNone => 0 | VBool _ => 1 | VInt _ => 2 | VStr _ => 3 | VList _ => 4 | VTuple _ => 5
  end.

Definition order_leb (a b : value) : bool :=
  if Nat.ltb (rank a) (rank b) then true
  else if Nat.ltb (rank b) (rank a) then false
  else match value_compare a b with Some Datatypes.Gt => false | _ => true end.

Fixpoint insert_by (leb : row -> row -> bool) (x : row) (l : list row) : list row :=
  match l with
  | [] => [x]
  | y :: l' => if leb x y then x :: l else y :: insert_by leb x l'
  end.

(** A stable sort. *)
Definition sort_by (leb : row -> row -> bool) (l : list row) : list row :=
  fold_right (insert_by leb) [] l.

End Store.
Import Store.

(** ** Queries, statements and the session *)

Inductive ordering : Type :=
| Asc (col : column)     (* column.asc() *)
| Desc (col : column).   (* column.desc() *)

Inductive load_option : Type :=
| Joinedload (rel : string)   (* joinedload(model) *)
| Lazyload (rel : string).    (* lazyload(model) *)

(** What [__generate_query] returns:
    [select(model).where(..).options(..).order_by(..).limit(..).offset(..)]. *)
Record query : Type := {
  q_where : list predicate;
  q_options : list load_option;
  q_order_by : option ordering;
  q_limit : option Z;
  q_offset : option Z
}.

Inductive statement : Type :=
| Select (q : query)                                       (* select(model)... *)
| SelectCount (conditions : list predicate)                (* select(func.count(..)).select_from(model)... *)
| Update (conditions : list predicate) (values : fields_t) (* update(model).where(..).values(..) *)
| Delete (conditions : list predicate).                    (* delete(model).where(..) *)

(** Everything the repository asks of the session. *)
Inductive event : Type :=
| Executed (stmt : statement)
| Committed
| Refreshed (instance : nat)
| MarkedDeleted (instance : nat).

(** A change the unit of work holds until the commit that flushes it. *)
Inductive pending_change : Type :=
| Dirty (instance : row)
| ToDelete (instance : nat).

(** The session between two operations: the table of the repository's
    model and the log of what reached the session so far.  Every write
    operation of base.py commits before it returns, so the unit of work is
    empty between operations; inside one it is what [commit] is given. *)
Record session : Type := {
  table : list row;
  log : list event
}.

(** What [session.execute] hands back. *)
Record result : Type := {
  rows : list row;          (* the entities of a select *)
  scalar : option Z;        (* result.scalar() *)
  rowcount : Z              (* result.rowcount *)
}.

Definition order_rows (o : option ordering) (l : list row) : list row :=
  match o with
  | None => l
  | Some (Asc col) =>
      sort_by (fun a b => order_leb (field_value (fields a) col) (field_value (fields b) col)) l
  | Some (Desc col) =>
      sort_by (fun a b => order_leb (field_value (fields b) col) (field_value (fields a) col)) l
  end.

(** The rows a select returns: filtered, ordered, then OFFSET and LIMIT. *)
Definition select_rows (q : query) (t : list row) : list row :=
  let ordered := order_rows (q_order_by q) (filter (matches (q_where q)) t) in
  let skipped :=
    match q_offset q with Some n => skipn (Z.to_nat n) ordered | None => ordered end in
  match q_limit q with Some n => firstn (Z.to_nat n) skipped | None => skipped end.

(** [setattr(instance, field, value)] *)
Definition setattr (instance : row) (field : string) (v : value) : row :=
  {| oid := oid instance;
     fields := Py.set (fields instance) field v;
     related := related instance |}.

Definition assign (values : fields_t) (r : row) : row :=
  fold_left (fun acc fv => setattr acc (fst fv) (snd fv)) values r.

(** The table after a statement ran, and its result. *)
Definition run_statement (stmt : statement) (t : list row) : result * list row :=
  match stmt with
  | Select q =>
      ({| rows := select_rows q t; scalar := None; rowcount := (-1)%Z |}, t)
  | SelectCount conditions =>
      ({| rows := [];
          scalar := Some (Z.of_nat (List.length (filter (matches conditions) t)));
          rowcount := (-1)%Z |}, t)
  | Update conditions values =>
      ({| rows := []; scalar := None;
          rowcount := Z.of_nat (List.length (filter (matches conditions) t)) |},
       map (fun r => if matches conditions r then assign values r else r) t)
  | Delete conditions =>
      ({| rows := []; scalar := None;
          rowcount := Z.of_nat (List.length (filter (matches conditions) t)) |},
       filter (fun r => negb (matches conditions r)) t)
  end.

Definition apply_change (t : list row) (c : pending_change) : list row :=
  match c with
  | Dirty instance => map (fun r => if Nat.eqb (oid r) (oid instance) then instance else r) t
  | ToDelete i => filter (fun r => negb (Nat.eqb (oid r) i)) t
  end.

(** ** Operations as session transformers *)

(** An operation runs in a session and ends with an exception or a value;
    what it did to the session before raising stays done. *)
Definition M (A : Type) : Type := session -> (exception + A) * session.

Definition ret {A : Type} (a : A) : M A := fun s => (inr a, s).

Definition raise {A : Type} (e : exception) : M A := fun s => (inl e, s).

Definition bind {A B : Type} (m : M A) (k : A -> M B) : M B :=
  fun s =>
    match m s with
    | (inl e, s') => (inl e, s')
    | (inr a, s') => k a s'
    end.

(** A computation that does not touch the session. *)
Definition lift {A : Type} (r : exception + A) : M A := fun s => (r, s).

Declare Scope session_scope.
Delimit Scope session_scope with session.
Notation "x <- m ;; k" := (bind m (fun x => k))
  (at level 61, m at next level, right associativity) : session_scope.
Notation "m ;; k" := (bind m (fun _ => k))
  (at level 61, right associativity) : session_scope.
Local Open Scope session_scope.

(** [await session.execute(stmt)] *)
Definition execute (stmt : statement) : M result :=
  fun s =>
    let (res, t) := run_statement stmt (table s) in
    (inr res, {| table := t; log := (log s ++ [Executed stmt])%list |}).

(** [await session.commit()], flushing the changes the operation made to
    loaded instances since it began. *)
Definition commit (changes : list pending_change) : M unit :=
  fun s =>
    (inr tt, {| table := fold_left apply_change changes (table s);
                log := (log s ++ [Committed])%list |}).

(** [await session.delete(instance)]: the instance is marked; the row goes
    with the commit. *)
Definition delete (instance : row) : M unit :=
  fun s =>
    (inr tt, {| table := table s;
                log := (log s ++ [MarkedDeleted (oid instance)])%list |}).

(** [await session.refresh(instance)]: the instance as the store has it. *)
Definition refresh (instance : row) : M row :=
  fun s =>
    let s' := {| table := table s;
                 log := (log s ++ [Refreshed (oid instance)])%list |} in
    match List.find (fun r => Nat.eqb (oid r) (oid instance)) (table s) with
    | Some r => (inr r, s')
    | None => (inl (InvalidRequestError "Could not refresh instance"), s')
    end.

(** [result.scalars().first()] *)
Definition scalars_first (res : result) : option row := hd_error (rows res).

(** [result.unique()]: one row per loaded instance, first occurrence kept. *)
Fixpoint unique (seen : list nat) (l : list row) : list row :=
  match l with
  | [] => []
  | r :: l' =>
      if existsb (Nat.eqb (oid r)) seen then unique seen l'
      else r :: unique (oid r :: seen) l'
  end.

(** [result.unique().scalars().all()] *)
Definition unique_scalars_all (res : result) : list row := unique [] (rows res).

(** ** [class BaseRepository] *)

Module BaseRepository.

(** A repository subtype: its model and its class attribute [default_scope].
    The session is the state the operations run in. *)
Record repository : Type := {
  model : mapped_class;
  default_scope : fields_t
}.

(** [__init__]: a repository without a model is refused. *)
Definition __init__ (default_scope : fields_t) (model : option mapped_class)
  : exception + repository :=
  match model with
  | None => inl (ValueError "Model is not set for this repository.")
  | Some m => inr {| model := m; default_scope := default_scope |}
  end.

(** [_apply_order_by].  A class attribute is an object without a truth
    value of its own, so [not column] holds for [None] only.  The ordering
    is what [column.asc()] and [column.desc()] build for a [Column]; for
    another attribute the call is the mapping layer's to answer. *)
Definition _apply_order_by (self : repository) (q : query)
    (sorted_by : string) (sorted_order : string) : exception + query :=
  match getattr (model self) sorted_by with
  | None => inl (no_attribute (model self) sorted_by)
  | Some _ =>
      let col := column_of (model self) sorted_by in
      if String.eqb (lower sorted_order) "asc"
      then inr {| q_where := q_where q; q_options := q_options q;
                  q_order_by := Some (Asc col);
                  q_limit := q_limit q; q_offset := q_offset q |}
      else inr {| q_where := q_where q; q_options := q_options q;
                  q_order_by := Some (Desc col);
                  q_limit := q_limit q; q_offset := q_offset q |}
  end.

(** [query.options(..)] once per listed model, when the list is given and
    not empty. *)
Definition with_options (q : query) (mk : string -> load_option)
    (models : option (list string)) : query :=
  match models with
  | Some (m :: ms) =>
      {| q_where := q_where q; q_options := (q_options q ++ map mk (m :: ms))%list;
         q_order_by := q_order_by q; q_limit := q_limit q; q_offset := q_offset q |}
  | _ => q
  end.

(** Lines 191-196 and 154-160: the default scope's conditions, unless
    disabled, then the explicit ones. *)
Definition scoped_conditions (self : repository) (disable_default_scope : bool)
    (search_params : fields_t) : exception + list predicate :=
  match
    (if negb disable_default_scope
     then __get_conditions (model self) (default_scope self)
     else inr [])
  with
  | inl e => inl e
  | inr default_conditions =>
      match __get_conditions (model self) search_params with
      | inl e => inl e
      | inr conditions => inr (default_conditions ++ conditions)%list
      end
  end.

(** [__generate_query] *)
Definition __generate_query (self : repository) (limit offset : Z)
    (sorted_by : option string) (sorted_order : string)
    (joinedload_models lazyload_models : option (list string))
    (disable_default_scope : bool) (search_params : fields_t) : exception + query :=
  match scoped_conditions self disable_default_scope search_params with
  | inl e => inl e
  | inr conditions =>
      let q := {| q_where := conditions; q_options := []; q_order_by := None;
                  q_limit := None; q_offset := None |} in
      let q := with_options q Joinedload joinedload_models in
      let q := with_options q Lazyload lazyload_models in
      match
        (match sorted_by with
         | Some (String c rest) => _apply_order_by self q (String c rest) sorted_order
         | _ => inr q
         end)
      with
      | inl e => inl e
      | inr q =>
          inr {| q_where := q_where q; q_options := q_options q;
                 q_order_by := q_order_by q;
                 q_limit := Some limit; q_offset := Some offset |}
      end
  end.

Definition not_found_id (self : repository) (id : value) : exception :=
  NoResultFound (__name__ (model self) ++ " with id " ++ Py.str id ++ " not found.").

Definition not_found_attributes (self : repository) (search_params : fields_t) : exception :=
  NoResultFound
    (__name__ (model self) ++ " with attributes " ++ repr_dict search_params ++ " not found.").

(** [find] *)
Definition find (self : repository) (id : value)
    (sorted_by : option string) (sorted_order : string)
    (joinedload_models lazyload_models : option (list string))
    (disable_default_scope : bool) : M row :=
  q <- lift (__generate_query self 1 0 sorted_by sorted_order
               joinedload_models lazyload_models disable_default_scope [("id", id)]) ;;
  res <- execute (Select q) ;;
  match scalars_first res with
  | None => raise (not_found_id self id)
  | Some instance => ret instance
  end.

(** The first of [search_params]' keys that [find_by] also passes to
    [__generate_query] by name.  The other keyword parameters of
    [__generate_query] are parameters of [find_by] itself and never reach
    [search_params]. *)
Definition keyword_clash (search_params : fields_t) : option string :=
  List.find (fun k => String.eqb k "limit" || String.eqb k "offset") (map fst search_params).

Definition multiple_values (keyword : string) : exception :=
  TypeError ("BaseRepository.__generate_query() got multiple values for keyword argument '"
             ++ keyword ++ "'").

(** [find_by] *)
Definition find_by (self : repository)
    (sorted_by : option string) (sorted_order : string)
    (joinedload_models lazyload_models : option (list string))
    (disable_default_scope : bool) (search_params : fields_t) : M (option row) :=
  match keyword_clash search_params with
  | Some k => raise (multiple_values k)
  | None =>
      q <- lift (__generate_query self 1 0 sorted_by sorted_order
                   joinedload_models lazyload_models disable_default_scope search_params) ;;
      res <- execute (Select q) ;;
      ret (scalars_first res)
  end.

(** [find_by_or_raise] *)
Definition find_by_or_raise (self : repository)
    (sorted_by : option string) (sorted_order : string)
    (joinedload_models lazyload_models : option (list string))
    (disable_default_scope : bool) (search_params : fields_t) : M row :=
  found <- find_by self sorted_by sorted_order joinedload_models lazyload_models
             disable_default_scope search_params ;;
  match found with
  | None => raise (not_found_attributes self search_params)
  | Some instance => ret instance
  end.

(** [where] *)
Definition where_ (self : repository) (limit offset : Z)
    (sorted_by : option string) (sorted_order : string)
    (joinedload_models lazyload_models : option (list string))
    (disable_default_scope : bool) (search_params : fields_t) : M (list row) :=
  q <- lift (__generate_query self limit offset sorted_by sorted_order
               joinedload_models lazyload_models disable_default_scope search_params) ;;
  res <- execute (Select q) ;;
  ret (unique_scalars_all res).

(** Lines 154-160 of [count]: as in [__generate_query], with the default
    conditions added when the list is not empty. *)
Definition count_conditions (self : repository) (disable_default_scope : bool)
    (search_params : fields_t) : exception + list predicate :=
  match
    (if negb disable_default_scope
     then
       match __get_conditions (model self) (default_scope self) with
       | inl e => inl e
       | inr [] => inr []
       | inr default_conditions => inr ([] ++ default_conditions)%list
       end
     else inr [])
  with
  | inl e => inl e
  | inr conditions =>
      match __get_conditions (model self) search_params with
      | inl e => inl e
      | inr more => inr (conditions ++ more)%list
      end
  end.

(** [count] *)
Definition count (self : repository) (disable_default_scope : bool)
    (search_params : fields_t) : M Z :=
  conditions <- lift (count_conditions self disable_default_scope search_params) ;;
  res <- execute (SelectCount conditions) ;;
  (* result.scalar() or 0 *)
  ret (match scalar res with
       | Some n => if Z.eqb n 0 then 0%Z else n
       | None => 0%Z
       end).

(** [exists] *)
Definition exists_ (self : repository) (disable_default_scope : bool)
    (search_params : fields_t) : M bool :=
  counted <- count self disable_default_scope search_params ;;
  ret (Z.gtb counted 0).

(** [update] *)
Definition update (self : repository) (id : value) (update_params : fields_t) : M row :=
  instance <- find self id None "asc" None None false ;;
  (* for field, value in update_params.items(): setattr(instance, field, value) *)
  let instance := assign update_params instance in
  commit [Dirty instance] ;;
  refresh instance.

(** [update_all] *)
Definition update_all (self : repository) (updates : fields_t)
    (search_params : fields_t) : M Z :=
  conditions <- lift (__get_conditions (model self) search_params) ;;
  res <- execute (Update conditions updates) ;;
  commit [] ;;
  ret (rowcount res).

(** [destroy] *)
Definition destroy (self : repository) (id : value) : M unit :=
  instance <- find self id None "asc" None None false ;;
  delete instance ;;
  commit [ToDelete (oid instance)].

(** [destroy_all] *)
Definition destroy_all (self : repository) (search_params : fields_t) : M Z :=
  conditions <- lift (__get_conditions (model self) search_params) ;;
  res <- execute (Delete conditions) ;;
  commit [] ;;
  ret (rowcount res).

End BaseRepository.
Import BaseRepository.

(** ** Words of the specification

    The definitions below are not taken from base.py: they name what the
    specification talks about, so that the theorems can say it. *)

(** An operation fails with [e] before anything reaches the session. *)
Definition fails_before_execution {A : Type} (op : M A) (e : exception) : Prop :=
  forall s, op s = (inl e, s).

(** Every read operation that takes the filter set [f] fails with [e]
    before anything reaches the session.  [find_by] and [find_by_or_raise]
    are counted when no key of [f] clashes with the keywords they pass to
    [__generate_query] themselves. *)
Definition reads_fail_before_execution (self : repository) (dds : bool)
    (f : fields_t) (e : exception) : Prop :=
  (forall limit offset sb so jl ll,
      fails_before_execution (where_ self limit offset sb so jl ll dds f) e)
  /\ (keyword_clash f = None ->
      forall sb so jl ll,
        fails_before_execution (find_by self sb so jl ll dds f) e
        /\ fails_before_execution (find_by_or_raise self sb so jl ll dds f) e)
  /\ fails_before_execution (count self dds f) e
  /\ fails_before_execution (exists_ self dds f) e.

(** Both bulk operations fail with [e] before anything reaches the session. *)
Definition bulk_fail_before_execution (self : repository) (f : fields_t)
    (e : exception) : Prop :=
  (forall updates, fails_before_execution (update_all self updates f) e)
  /\ fails_before_execution (destroy_all self f) e.

(** A segment of a filter key: a name without the separator in it that
    does not end in an underscore, so that joining segments with ["__"] can
    be split back in one way only. *)
Fixpoint ends_with_underscore (s : string) : bool :=
  match s with
  | EmptyString => false
  | String c rest =>
      match rest with
      | EmptyString => is_underscore c
      | _ => ends_with_underscore rest
      end
  end.

Definition segment (s : string) : Prop :=
  contains_dunder s = false /\ ends_with_underscore s = false.


(** The session after one more statement was executed without changing the
    table. *)
Definition after_select (s : session) (stmt : statement) : session :=
  {| table := table s; log := (log s ++ [Executed stmt])%list |}.

(** The number of rows of the session's table that satisfy the conditions. *)
Definition matching (conditions : list predicate) (s : session) : Z :=
  Z.of_nat (List.length (filter (matches conditions) (table s))).

(** The models of an eager-load parameter: none when it is absent. *)
Definition listed (models : option (list string)) : list string :=
  match models with Some l => l | None => [] end.

(** The query of the [find(id)] that [update] and [destroy] begin with: all
    keyword parameters of [find] at their defaults. *)
Definition lookup_query (self : repository) (id : value) : exception + query :=
  __generate_query self 1 0 None "asc" None None false [("id", id)].

(** [sorted_by] is absent, empty, or names an attribute of the model. *)
Definition orderable (self : repository) (sorted_by : option string) : Prop :=
  match sorted_by with
  | Some (String c rest) => getattr (model self) (String c rest) <> None
  | _ => True
  end.

(** [sorted_by] is absent, empty, or names a column of the model. *)
Definition sorts_on_column (self : repository) (sorted_by : option string) : Prop :=
  match sorted_by with
  | Some (String c rest) => getattr (model self) (String c rest) = Some Column
  | _ => True
  end.

(** The ORDER BY [_apply_order_by] chooses. *)
Definition ordering_for (self : repository) (sorted_by : string) (sorted_order : string)
  : ordering :=
  if String.eqb (lower sorted_order) "asc"
  then Asc (column_of (model self) sorted_by)
  else Desc (column_of (model self) sorted_by).

(** ** Sample mapped classes and sessions *)

(** The model of tests/conftest.py. *)
Definition User : mapped_class :=
  MappedClass "User"
    [ ("id", Column); ("name", Column); ("age", Column); ("email", Column);
      ("hashed_password", Column); ("is_active", Column); ("failed_attempts", Column) ].

(** A parent class with a one-to-many relationship and a plain method. *)
Definition Post : mapped_class :=
  MappedClass "Post" [ ("id", Column); ("title", Column); ("views", Column) ].

Definition Author : mapped_class :=
  MappedClass "Author"
    [ ("id", Column); ("name", Column); ("is_active", Column);
      ("posts", Relationship Post); ("display_name", Plain) ].

(** A class with a column whose name ends in an underscore, as models write
    names that would shadow a builtin. *)
Definition Event : mapped_class :=
  MappedClass "Event" [ ("id", Column); ("type_", Column); ("type", Column) ].



Definition users : repository := {| model := User; default_scope := [] |}.

Definition active_users : repository :=
  {| model := User; default_scope := [("is_active", VBool true)] |}.

Definition authors : repository :=
  {| model := Author; default_scope := [("is_active", VBool true)] |}.

Definition user_row (n : nat) (name : string) (age : Z) (active : bool) : row :=
  {| oid := n;
     fields := [ ("id", VInt (Z.of_nat n)); ("name", VStr name); ("age", VInt age);
                 ("is_active", VBool active) ];
     related := [] |}.

Definition three_users : session :=
  {| table := [ user_row 1 "Bob" 30 false; user_row 2 "Cid" 80 true;
                user_row 3 "Ann" 18 true ];
     log := [] |}.

Definition ann : row :=
  {| oid := 1;
     fields := [ ("id", VInt 1); ("name", VStr "Ann"); ("is_active", VBool true) ];
     related := [ ("posts", [ [("title", VStr "Hello"); ("views", VInt 3)];
                              [("title", VStr "Hello"); ("views", VInt 9)] ]) ] |}.

Definition bob : row :=
  {| oid := 2;
     fields := [ ("id", VInt 2); ("name", VStr "Bob"); ("is_active", VBool false) ];
     related := [ ("posts", [ [("title", VStr "Bye"); ("views", VInt 1)] ]) ] |}.

Definition two_authors : session := {| table := [ann; bob]; log := [] |}.

(** * Theorems *)

(** ** The Python helpers on sample inputs *)

Example split_field_op : split_dunder "age__gte" = ["age"; "gte"].
Proof. reflexivity. Qed.

Example split_three_underscores : split_dunder "a___b" = ["a"; "_b"].
Proof. reflexivity. Qed.

Example split_trailing_separator : split_dunder "a__" = ["a"; EmptyString].
Proof. reflexivity. Qed.

Example split_single_underscores : split_dunder "is_active" = ["is_active"].
Proof. reflexivity. Qed.

Example lower_mixed_case : lower "AsC" = "asc".
Proof. reflexivity. Qed.

Example repr_dict_two_items :
  repr_dict [("name", VStr "x"); ("age", VInt 30)] = "{'name': 'x', 'age': 30}".
Proof. reflexivity. Qed.

Example like_percent : like_match "%ell%" "hello" = true.
Proof. reflexivity. Qed.

Example like_anchored : like_match "ell%" "hello" = false.
Proof. reflexivity. Qed.

(** The concrete operator checks of the specification: [age__gte=30] over
    ages 30, 80, 18 keeps 30 and 80; [name__icontains] is insensitive to case;
    [age__in=[18, 80]] keeps exactly those two. *)
Example where_age_gte :
  fst (where_ users 100 0 None "asc" None None false [("age__gte", VInt 30)] three_users)
  = inr [user_row 1 "Bob" 30 false; user_row 2 "Cid" 80 true].
Proof. reflexivity. Qed.

Example where_name_icontains :
  fst (where_ users 100 0 None "asc" None None false [("name__icontains", VStr "BO")]
         three_users)
  = inr [user_row 1 "Bob" 30 false].
Proof. reflexivity. Qed.

Example where_age_in :
  fst (where_ users 100 0 None "asc" None None false
         [("age__in", VList [VInt 18; VInt 80])] three_users)
  = inr [user_row 2 "Cid" 80 true; user_row 3 "Ann" 18 true].
Proof. reflexivity. Qed.

(** The default scope of the specification's example: only active rows,
    unless the scope is disabled. *)
Example where_default_scope :
  fst (where_ active_users 100 0 None "asc" None None false [] three_users)
  = inr [user_row 2 "Cid" 80 true; user_row 3 "Ann" 18 true]
  /\ fst (where_ active_users 100 0 None "asc" None None true [] three_users)
     = inr (table three_users).
Proof. split; reflexivity. Qed.

(** A filter key named like a keyword [find_by] passes on itself never
    reaches the compiler. *)
Example find_by_limit_clash :
  find_by users None "asc" None None false [("limit", VInt 3)] three_users
  = (inl (multiple_values "limit"), three_users).
Proof. reflexivity. Qed.

(** A column in the place of a relationship has a [.property], so the check
    of line 254 lets it pass, and the failure is Python's own on [.mapper]. *)
Example column_as_relationship :
  condition_for User "age__bogus" (VInt 1) = inl (AttributeError no_mapper_message).
Proof. reflexivity. Qed.

Example plain_attribute_as_relationship :
  condition_for Author "display_name__title" (VStr "x")
  = inl (no_relationship Author "display_name").
Proof. reflexivity. Qed.

(** ** The filter compiler *)

Lemma get_conditions_first_failure (model : mapped_class)
    (before after : fields_t) (key : string) (val : value)
    (conditions : list predicate) (e : exception) :
  __get_conditions model before = inr conditions ->
  condition_for model key val = inl e ->
  __get_conditions model (before ++ (key, val) :: after)%list = inl e.
Proof.
  revert conditions.
  induction before as [| [k v] before IH]; intros conditions Hbefore Hkey; simpl.
  - now rewrite Hkey.
  - simpl in Hbefore.
    destruct (condition_for model k v) as [e0 | c]; [discriminate |].
    destruct (__get_conditions model before) as [e0 | cs] eqn:Hcs; [discriminate |].
    now rewrite (IH cs eq_refl Hkey).
Qed.

Lemma get_conditions_some_failure (model : mapped_class)
    (search_params : fields_t) (key : string) (val : value) (e : exception) :
  In (key, val) search_params ->
  condition_for model key val = inl e ->
  exists e', __get_conditions model search_params = inl e'.
Proof.
  induction search_params as [| [k v] rest IH]; intros Hin Hkey; [contradiction |].
  simpl. destruct Hin as [Heq | Hin].
  - inversion Heq; subst. rewrite Hkey. eauto.
  - destruct (condition_for model k v) as [e0 | c]; [eauto |].
    destruct (IH Hin Hkey) as [e' He']. rewrite He'. eauto.
Qed.

Lemma get_conditions_nil (model : mapped_class) : __get_conditions model [] = inr [].
Proof. reflexivity. Qed.

(** The operator that [parts_and_op] leaves is a key of the table. *)
Lemma parts_and_op_in_table (key : string) :
  in_OPERATORS (snd (parts_and_op key)) = true.
Proof.
  unfold parts_and_op.
  destruct (in_OPERATORS (last (split_dunder key) EmptyString)) eqn:Hlast; simpl.
  - exact Hlast.
  - reflexivity.
Qed.

Lemma apply_operator_total (op : string) (col : column) (val : value) :
  in_OPERATORS op = true ->
  exists p, apply_operator op col val = inr p.
Proof.
  unfold in_OPERATORS, apply_operator.
  destruct (Py.get OPERATORS op) as [f |]; [eauto | discriminate].
Qed.

(** ** Query construction *)

Lemma count_conditions_scoped (self : repository) (dds : bool) (search_params : fields_t) :
  count_conditions self dds search_params = scoped_conditions self dds search_params.
Proof.
  unfold count_conditions, scoped_conditions.
  destruct dds; simpl; [reflexivity |].
  destruct (__get_conditions (model self) (default_scope self)) as [e | [| d ds]];
    reflexivity.
Qed.

Lemma generate_query_scope_failure (self : repository) (limit offset : Z)
    (sorted_by : option string) (sorted_order : string)
    (jl ll : option (list string)) (dds : bool) (search_params : fields_t)
    (e : exception) :
  scoped_conditions self dds search_params = inl e ->
  __generate_query self limit offset sorted_by sorted_order jl ll dds search_params = inl e.
Proof. intros H. unfold __generate_query. now rewrite H. Qed.

Lemma with_options_where (q : query) (mk : string -> load_option)
    (models : option (list string)) :
  q_where (with_options q mk models) = q_where q
  /\ q_order_by (with_options q mk models) = q_order_by q
  /\ q_limit (with_options q mk models) = q_limit q
  /\ q_offset (with_options q mk models) = q_offset q.
Proof. destruct models as [[| m ms] |]; simpl; auto. Qed.

Lemma generate_query_where (self : repository) (limit offset : Z)
    (sorted_by : option string) (sorted_order : string)
    (jl ll : option (list string)) (dds : bool) (search_params : fields_t)
    (q : query) :
  __generate_query self limit offset sorted_by sorted_order jl ll dds search_params = inr q ->
  scoped_conditions self dds search_params = inr (q_where q)
  /\ q_limit q = Some limit /\ q_offset q = Some offset.
Proof.
  unfold __generate_query.
  destruct (scoped_conditions self dds search_params) as [e | conds]; [discriminate |].
  set (q0 := with_options (with_options _ Joinedload jl) Lazyload ll).
  assert (Hq0 : q_where q0 = conds).
  { unfold q0.
    rewrite (proj1 (with_options_where _ Lazyload ll)).
    now rewrite (proj1 (with_options_where _ Joinedload jl)). }
  clearbody q0.
  destruct sorted_by as [[| c rest] |].
  - intros H; injection H as <-; simpl; rewrite Hq0; auto.
  - unfold _apply_order_by.
    destruct (getattr (model self) (String c rest)); [| discriminate].
    destruct (String.eqb (lower sorted_order) "asc");
      intros H; injection H as <-; simpl; rewrite Hq0; auto.
  - intros H; injection H as <-; simpl; rewrite Hq0; auto.
Qed.

(** The query [__generate_query] builds once the conditions compile and the
    ordering resolves. *)
Lemma generate_query_built (self : repository) (limit offset : Z)
    (sorted_by : option string) (sorted_order : string)
    (jl ll : option (list string)) (dds : bool) (search_params : fields_t)
    (conditions : list predicate) :
  scoped_conditions self dds search_params = inr conditions ->
  orderable self sorted_by ->
  exists q,
    __generate_query self limit offset sorted_by sorted_order jl ll dds search_params = inr q
    /\ q_where q = conditions
    /\ q_limit q = Some limit /\ q_offset q = Some offset
    /\ q_order_by q =
         match sorted_by with
         | Some (String c rest) => Some (ordering_for self (String c rest) sorted_order)
         | _ => None
         end.
Proof.
  intros Hc Ho. unfold __generate_query. rewrite Hc.
  set (q0 := with_options (with_options _ Joinedload jl) Lazyload ll).
  assert (Hq0 : q_where q0 = conditions /\ q_order_by q0 = None).
  { unfold q0.
    destruct (with_options_where
                (with_options {| q_where := conditions; q_options := []; q_order_by := None;
                                 q_limit := None; q_offset := None |} Joinedload jl)
                Lazyload ll) as (-> & -> & _).
    destruct (with_options_where
                {| q_where := conditions; q_options := []; q_order_by := None;
                   q_limit := None; q_offset := None |} Joinedload jl) as (-> & -> & _).
    now split. }
  destruct Hq0 as [Hw Hord]. clearbody q0.
  destruct sorted_by as [[| c rest] |]; simpl in Ho.
  - eexists; split; [reflexivity |]; simpl; auto.
  - unfold _apply_order_by, ordering_for.
    destruct (getattr (model self) (String c rest)); [| contradiction].
    destruct (String.eqb (lower sorted_order) "asc");
      (eexists; split; [reflexivity |]; simpl; auto).
  - eexists; split; [reflexivity |]; simpl; auto.
Qed.

(** ** What each operation does to the session *)

Section Runs.

Variable self : repository.
Variable s : session.

Lemma select_runs (q : query) :
  execute (Select q) s
  = (inr {| rows := select_rows q (table s); scalar := None; rowcount := (-1)%Z |},
     after_select s (Select q)).
Proof. reflexivity. Qed.

Lemma where_runs (limit offset : Z) (sb : option string) (so : string)
    (jl ll : option (list string)) (dds : bool) (f : fields_t) (q : query) :
  __generate_query self limit offset sb so jl ll dds f = inr q ->
  where_ self limit offset sb so jl ll dds f s
  = (inr (unique [] (select_rows q (table s))), after_select s (Select q)).
Proof. intros H. unfold where_, bind, lift. now rewrite H. Qed.

Lemma where_raises (limit offset : Z) (sb : option string) (so : string)
    (jl ll : option (list string)) (dds : bool) (f : fields_t) (e : exception) :
  __generate_query self limit offset sb so jl ll dds f = inl e ->
  where_ self limit offset sb so jl ll dds f s = (inl e, s).
Proof. intros H. unfold where_, bind, lift. now rewrite H. Qed.

Lemma find_by_runs (sb : option string) (so : string)
    (jl ll : option (list string)) (dds : bool) (f : fields_t) (q : query) :
  keyword_clash f = None ->
  __generate_query self 1 0 sb so jl ll dds f = inr q ->
  find_by self sb so jl ll dds f s
  = (inr (hd_error (select_rows q (table s))), after_select s (Select q)).
Proof. intros Hk H. unfold find_by, bind, lift. now rewrite Hk, H. Qed.

Lemma find_by_raises (sb : option string) (so : string)
    (jl ll : option (list string)) (dds : bool) (f : fields_t) (e : exception) :
  keyword_clash f = None ->
  __generate_query self 1 0 sb so jl ll dds f = inl e ->
  find_by self sb so jl ll dds f s = (inl e, s).
Proof. intros Hk H. unfold find_by, bind, lift. now rewrite Hk, H. Qed.

Lemma find_by_or_raise_runs (sb : option string) (so : string)
    (jl ll : option (list string)) (dds : bool) (f : fields_t) (q : query) :
  keyword_clash f = None ->
  __generate_query self 1 0 sb so jl ll dds f = inr q ->
  find_by_or_raise self sb so jl ll dds f s
  = (match hd_error (select_rows q (table s)) with
     | None => inl (not_found_attributes self f)
     | Some instance => inr instance
     end, after_select s (Select q)).
Proof.
  intros Hk H. unfold find_by_or_raise, bind.
  rewrite (find_by_runs sb so jl ll dds f Hk H).
  destruct (hd_error (select_rows q (table s))); reflexivity.
Qed.

Lemma find_by_or_raise_raises (sb : option string) (so : string)
    (jl ll : option (list string)) (dds : bool) (f : fields_t) (e : exception) :
  keyword_clash f = None ->
  __generate_query self 1 0 sb so jl ll dds f = inl e ->
  find_by_or_raise self sb so jl ll dds f s = (inl e, s).
Proof.
  intros Hk H. unfold find_by_or_raise, bind.
  now rewrite (find_by_raises sb so jl ll dds f Hk H).
Qed.

Lemma find_runs (id : value) (sb : option string) (so : string)
    (jl ll : option (list string)) (dds : bool) (q : query) :
  __generate_query self 1 0 sb so jl ll dds [("id", id)] = inr q ->
  find self id sb so jl ll dds s
  = (match hd_error (select_rows q (table s)) with
     | None => inl (not_found_id self id)
     | Some instance => inr instance
     end, after_select s (Select q)).
Proof.
  intros H. unfold find, bind, lift. rewrite H. simpl.
  unfold scalars_first. simpl.
  destruct (hd_error (select_rows q (table s))); reflexivity.
Qed.

Lemma find_raises (id : value) (sb : option string) (so : string)
    (jl ll : option (list string)) (dds : bool) (e : exception) :
  __generate_query self 1 0 sb so jl ll dds [("id", id)] = inl e ->
  find self id sb so jl ll dds s = (inl e, s).
Proof. intros H. unfold find, bind, lift. now rewrite H. Qed.

Lemma scalar_or_zero (n : nat) :
  (if Z.eqb (Z.of_nat n) 0 then 0%Z else Z.of_nat n) = Z.of_nat n.
Proof. destruct (Z.eqb_spec (Z.of_nat n) 0) as [-> |]; reflexivity. Qed.

Lemma count_runs (dds : bool) (f : fields_t) (conditions : list predicate) :
  scoped_conditions self dds f = inr conditions ->
  count self dds f s
  = (inr (matching conditions s), after_select s (SelectCount conditions)).
Proof.
  intros H. unfold count, bind, lift. rewrite count_conditions_scoped, H.
  unfold execute, matching. simpl. now rewrite scalar_or_zero.
Qed.

Lemma count_raises (dds : bool) (f : fields_t) (e : exception) :
  scoped_conditions self dds f = inl e ->
  count self dds f s = (inl e, s).
Proof. intros H. unfold count, bind, lift. now rewrite count_conditions_scoped, H. Qed.

Lemma exists_runs (dds : bool) (f : fields_t) (conditions : list predicate) :
  scoped_conditions self dds f = inr conditions ->
  exists_ self dds f s
  = (inr (Z.gtb (matching conditions s) 0), after_select s (SelectCount conditions)).
Proof. intros H. unfold exists_, bind. now rewrite (count_runs dds f H). Qed.

Lemma exists_raises (dds : bool) (f : fields_t) (e : exception) :
  scoped_conditions self dds f = inl e ->
  exists_ self dds f s = (inl e, s).
Proof. intros H. unfold exists_, bind. now rewrite (count_raises dds f H). Qed.

Lemma update_all_runs (updates f : fields_t) (conditions : list predicate) :
  __get_conditions (model self) f = inr conditions ->
  update_all self updates f s
  = (inr (matching conditions s),
     {| table := map (fun r => if matches conditions r then assign updates r else r) (table s);
        log := (log s ++ [Executed (Update conditions updates); Committed])%list |}).
Proof.
  intros H. unfold update_all, bind, lift. rewrite H.
  unfold execute, commit, matching. simpl. now rewrite <- app_assoc.
Qed.

Lemma update_all_raises (updates f : fields_t) (e : exception) :
  __get_conditions (model self) f = inl e ->
  update_all self updates f s = (inl e, s).
Proof. intros H. unfold update_all, bind, lift. now rewrite H. Qed.

Lemma destroy_all_runs (f : fields_t) (conditions : list predicate) :
  __get_conditions (model self) f = inr conditions ->
  destroy_all self f s
  = (inr (matching conditions s),
     {| table := filter (fun r => negb (matches conditions r)) (table s);
        log := (log s ++ [Executed (Delete conditions); Committed])%list |}).
Proof.
  intros H. unfold destroy_all, bind, lift. rewrite H.
  unfold execute, commit, matching. simpl. now rewrite <- app_assoc.
Qed.

Lemma destroy_all_raises (f : fields_t) (e : exception) :
  __get_conditions (model self) f = inl e ->
  destroy_all self f s = (inl e, s).
Proof. intros H. unfold destroy_all, bind, lift. now rewrite H. Qed.

Lemma update_not_found (id : value) (update_params : fields_t) (q : query) :
  lookup_query self id = inr q ->
  select_rows q (table s) = [] ->
  update self id update_params s = (inl (not_found_id self id), after_select s (Select q)).
Proof.
  intros H Hrows. unfold update, bind.
  rewrite (find_runs id None "asc" None None false H), Hrows. reflexivity.
Qed.

Lemma destroy_not_found (id : value) (q : query) :
  lookup_query self id = inr q ->
  select_rows q (table s) = [] ->
  destroy self id s = (inl (not_found_id self id), after_select s (Select q)).
Proof.
  intros H Hrows. unfold destroy, bind.
  rewrite (find_runs id None "asc" None None false H), Hrows. reflexivity.
Qed.

Lemma update_raises (id : value) (update_params : fields_t) (e : exception) :
  lookup_query self id = inl e ->
  update self id update_params s = (inl e, s).
Proof.
  intros H. unfold update, bind.
  now rewrite (find_raises id None "asc" None None false H).
Qed.

Lemma destroy_raises (id : value) (e : exception) :
  lookup_query self id = inl e ->
  destroy self id s = (inl e, s).
Proof.
  intros H. unfold destroy, bind.
  now rewrite (find_raises id None "asc" None None false H).
Qed.

End Runs.

(** ** Rows selected by a query *)

Lemma filter_none {A : Type} (f : A -> bool) (l : list A) :
  (forall x, In x l -> f x = false) -> filter f l = [].
Proof.
  induction l as [| a l IH]; intros H; simpl; [reflexivity |].
  rewrite (H a (or_introl eq_refl)). apply IH. intros x Hx. apply H. now right.
Qed.

Lemma filter_all {A : Type} (f : A -> bool) (l : list A) :
  (forall x, In x l -> f x = true) -> filter f l = l.
Proof.
  induction l as [| a l IH]; intros H; simpl; [reflexivity |].
  rewrite (H a (or_introl eq_refl)). f_equal. apply IH. intros x Hx. apply H. now right.
Qed.

Lemma select_rows_none (q : query) (t : list row) :
  filter (matches (q_where q)) t = [] -> select_rows q t = [].
Proof.
  intros H. unfold select_rows. rewrite H.
  assert (Ho : order_rows (q_order_by q) [] = []).
  { destruct (q_order_by q) as [[c | c] |]; reflexivity. }
  rewrite Ho.
  destruct (q_offset q) as [n |], (q_limit q) as [m |];
    rewrite ?skipn_nil, ?firstn_nil; reflexivity.
Qed.

Lemma matches_app (a b : list predicate) (r : row) :
  matches (a ++ b)%list r = matches a r && matches b r.
Proof. unfold matches. apply forallb_app. Qed.

Lemma matches_nil (r : row) : matches [] r = true.
Proof. reflexivity. Qed.

(** ** C7: count and exists *)

(** C7.  For every filter set and every state of the store, [exists] is
    [count > 0] on the outcome of [count], failing outcomes included, and
    leaves the session [count] leaves.  Once the filter set (with the default
    scope, unless disabled) compiles to [conditions], [count] returns the
    number of rows satisfying them, which is 0 when no row does, and
    [exists] returns [true] exactly when [count] returns a positive
    number. *)
Theorem C7_exists_iff_count_positive
    (self : repository) (s : session) (dds : bool) (f : fields_t) :
  exists_ self dds f s
  = (match fst (count self dds f s) with
     | inl e => inl e
     | inr n => inr (Z.gtb n 0)
     end, snd (count self dds f s))
  /\ (forall conditions,
        scoped_conditions self dds f = inr conditions ->
        fst (count self dds f s) = inr (matching conditions s)
        /\ (0 <= matching conditions s)%Z
        /\ (filter (matches conditions) (table s) = [] ->
            fst (count self dds f s) = inr 0%Z)
        /\ exists b,
             fst (exists_ self dds f s) = inr b
             /\ (b = true <-> exists n, fst (count self dds f s) = inr n /\ (n > 0)%Z)).
Proof.
  split.
  - unfold exists_, bind.
    destruct (count self dds f s) as [[e | n] s']; reflexivity.
  - intros conditions H.
    rewrite (exists_runs self s dds f H), (count_runs self s dds f H). simpl.
    split; [reflexivity |].
    split; [unfold matching; lia |].
    split; [intros Hnone; unfold matching; now rewrite Hnone |].
    exists (Z.gtb (matching conditions s) 0). split; [reflexivity |]. split.
    + intros Hpos. exists (matching conditions s). split; [reflexivity |].
      apply Z.gtb_lt in Hpos. lia.
    + intros (n & Hn & Hpos). injection Hn as <-. apply Z.gtb_lt. lia.
Qed.

(** On the three sample users, two are active: the scoped count is 2 and
    [exists] says yes. *)
Lemma C7_witness :
  fst (count active_users false [] three_users) = inr 2%Z
  /\ fst (exists_ active_users false [] three_users) = inr true.
Proof.
  pose proof (@C7_exists_iff_count_positive active_users three_users false [])
    as (Hexists & Hcompiled).
  destruct (Hcompiled [Eq (column_of User "is_active") (VBool true)] eq_refl)
    as (Hcount & _).
  split.
  - exact Hcount.
  - rewrite Hexists, Hcount. reflexivity.
Defined.

(** ** Assigning fields *)

Lemma get_set_same {A : Type} (d : list (string * A)) (k : string) (a : A) :
  Py.get (Py.set d k a) k = Some a.
Proof.
  induction d as [| [k' a'] d IH]; simpl.
  - now rewrite String.eqb_refl.
  - destruct (String.eqb k' k) eqn:He; simpl; rewrite He; [reflexivity | exact IH].
Qed.

Lemma get_set_other {A : Type} (d : list (string * A)) (k k' : string) (a : A) :
  k <> k' -> Py.get (Py.set d k a) k' = Py.get d k'.
Proof.
  intros Hne. induction d as [| [k0 a0] d IH]; simpl.
  - destruct (String.eqb_spec k k'); [contradiction | reflexivity].
  - destruct (String.eqb_spec k0 k) as [-> | Hk]; simpl.
    + destruct (String.eqb_spec k k'); [contradiction | reflexivity].
    + destruct (String.eqb k0 k'); [reflexivity | exact IH].
Qed.

Lemma assign_identity (p : fields_t) :
  forall r, oid (assign p r) = oid r /\ related (assign p r) = related r.
Proof.
  unfold assign. induction p as [| [k v] p IH]; intros r; simpl; [auto |].
  destruct (IH (setattr r k v)) as [-> ->]. auto.
Qed.

Lemma get_assign_other (p : fields_t) (k : string) :
  forall r,
    ~ In k (map fst p) ->
    Py.get (fields (assign p r)) k = Py.get (fields r) k.
Proof.
  unfold assign. induction p as [| [k0 v0] p IH]; intros r Hnot; simpl; [reflexivity |].
  simpl in Hnot. rewrite IH by tauto. simpl.
  apply get_set_other. tauto.
Qed.

Lemma get_assign_in (p : fields_t) (k : string) (v : value) :
  forall r,
    NoDup (map fst p) ->
    In (k, v) p ->
    Py.get (fields (assign p r)) k = Some v.
Proof.
  induction p as [| [k0 v0] p IH]; intros r Hnd Hin; [contradiction |].
  simpl in Hnd. inversion Hnd as [| ? ? Hnotin Hnd']; subst.
  destruct Hin as [Heq | Hin].
  - injection Heq as -> ->.
    change (assign ((k, v) :: p) r) with (assign p (setattr r k v)).
    rewrite get_assign_other by exact Hnotin. simpl. apply get_set_same.
  - change (assign ((k0, v0) :: p) r) with (assign p (setattr r k0 v0)).
    now apply IH.
Qed.

(** ** C9: bulk operations without filters *)

(** C9.  With an empty filter set the compiled condition list is empty,
    whatever the default scope.  [update_all], given some columns of the
    model to set, each once, then reaches every row: the rows stay in their
    order, each with its identity and its related rows, each carrying every
    updated field with its new value and every other field as it was.
    [destroy_all] deletes every row.  Each runs one statement and one
    commit, and returns the number of rows the table had at the call. *)
Theorem C9_bulk_without_filters_touch_every_row
    (self : repository) (s : session) :
  __get_conditions (model self) [] = inr []
  /\ (forall updates,
        updates <> [] ->
        NoDup (map fst updates) ->
        (forall k, In k (map fst updates) -> getattr (model self) k = Some Column) ->
        fst (update_all self updates [] s) = inr (Z.of_nat (List.length (table s)))
        /\ log (snd (update_all self updates [] s))
           = (log s ++ [Executed (Update [] updates); Committed])%list
        /\ Forall2
             (fun r r' =>
                oid r' = oid r
                /\ related r' = related r
                /\ (forall k v, In (k, v) updates -> Py.get (fields r') k = Some v)
                /\ (forall k, ~ In k (map fst updates) ->
                      Py.get (fields r') k = Py.get (fields r) k))
             (table s) (table (snd (update_all self updates [] s))))
  /\ destroy_all self [] s
     = (inr (Z.of_nat (List.length (table s))),
        {| table := [];
           log := (log s ++ [Executed (Delete []); Committed])%list |}).
Proof.
  split; [reflexivity |]. split.
  - intros updates _ Hnd _.
    rewrite (update_all_runs self s updates [] (get_conditions_nil (model self))).
    unfold matching. rewrite filter_all by (intros; apply matches_nil).
    cbn [fst snd table log].
    split; [reflexivity |]. split; [reflexivity |].
    induction (table s) as [| r t IH]; simpl; constructor; [| exact IH].
    destruct (assign_identity updates r) as [Hoid Hrel].
    split; [exact Hoid |]. split; [exact Hrel |]. split.
    + intros k v Hin. now apply get_assign_in.
    + intros k Hk. now apply get_assign_other.
  - rewrite (destroy_all_runs self s [] (get_conditions_nil (model self))).
    unfold matching. rewrite filter_all by (intros; apply matches_nil).
    f_equal. f_equal.
    apply filter_none. intros; reflexivity.
Qed.

(** Deactivating every sample user, with no filter and under a default scope
    that would keep the inactive Bob out of a read: the three rows are
    counted, and the three are inactive afterwards with their names kept. *)
Lemma C9_witness :
  fst (update_all active_users [("is_active", VBool false)] [] three_users) = inr 3%Z
  /\ table (snd (update_all active_users [("is_active", VBool false)] [] three_users))
     = [ user_row 1 "Bob" 30 false; user_row 2 "Cid" 80 false; user_row 3 "Ann" 18 false ]
  /\ fst (destroy_all active_users [] three_users) = inr 3%Z
  /\ table (snd (destroy_all active_users [] three_users)) = [].
Proof.
  destruct (@C9_bulk_without_filters_touch_every_row active_users three_users)
    as (_ & Hupdate & Hdestroy).
  assert (Hne : [("is_active", VBool false)] <> ([] : fields_t)) by discriminate.
  assert (Hnd : NoDup (map fst [("is_active", VBool false)])).
  { simpl. repeat constructor. intros []. }
  assert (Hcols : forall k, In k (map fst [("is_active", VBool false)]) ->
                    getattr (model active_users) k = Some Column).
  { intros k [<- | []]. reflexivity. }
  destruct (Hupdate [("is_active", VBool false)] Hne Hnd Hcols) as (Hcount & _).
  split; [exact Hcount |]. split; [reflexivity |].
  rewrite Hdestroy. split; reflexivity.
Defined.

(** ** C1: where the default scope is merged *)

Lemma update_log (self : repository) (s : session) (id : value)
    (update_params : fields_t) (q : query) :
  lookup_query self id = inr q ->
  exists rest,
    log (snd (update self id update_params s))
    = (log s ++ Executed (Select q) :: rest)%list
    /\ forall stmt, ~ In (Executed stmt) rest.
Proof.
  intros H. unfold update, bind.
  rewrite (find_runs self s id None "asc" None None false H).
  destruct (hd_error (select_rows q (table s))) as [instance |].
  - unfold commit, refresh. simpl.
    exists [Committed; Refreshed (oid (assign update_params instance))].
    split.
    + destruct (List.find _ _); simpl; rewrite <- !app_assoc; reflexivity.
    + intros stmt [Hin | [Hin | []]]; discriminate.
  - exists []. split; [reflexivity | intros stmt []].
Qed.

Lemma destroy_log (self : repository) (s : session) (id : value) (q : query) :
  lookup_query self id = inr q ->
  exists rest,
    log (snd (destroy self id s)) = (log s ++ Executed (Select q) :: rest)%list
    /\ forall stmt, ~ In (Executed stmt) rest.
Proof.
  intros H. unfold destroy, bind.
  rewrite (find_runs self s id None "asc" None None false H).
  destruct (hd_error (select_rows q (table s))) as [instance |].
  - unfold commit, delete. simpl.
    exists [MarkedDeleted (oid instance); Committed].
    split.
    + rewrite <- !app_assoc; reflexivity.
    + intros stmt [Hin | [Hin | []]]; discriminate.
  - exists []. split; [reflexivity | intros stmt []].
Qed.

(** C1.  Let the explicit filters compile to [conditions].  The one
    statement [update_all] and [destroy_all] execute carries [conditions]
    alone, whatever the default scope is.  Let [scope] be what the default
    scope compiles to, or nothing when [disable_default_scope] is true.  The
    statement [count], [exists], [where], [find_by] and [find_by_or_raise]
    execute carries [scope ++ conditions], and so does the select of [find]
    for the id filter; [update] and [destroy] begin with that select under
    the default scope, which they cannot disable, and execute no other
    statement. *)
Theorem C1_default_scope_in_reads_not_in_bulk
    (self : repository) (s : session) (f : fields_t) (conditions : list predicate) :
  __get_conditions (model self) f = inr conditions ->
  (forall updates,
      log (snd (update_all self updates f s))
      = (log s ++ [Executed (Update conditions updates); Committed])%list)
  /\ log (snd (destroy_all self f s))
     = (log s ++ [Executed (Delete conditions); Committed])%list
  /\ (forall (dds : bool) (scope : list predicate),
        (if dds then inr [] else __get_conditions (model self) (default_scope self))
        = inr scope ->
        log (snd (count self dds f s))
        = (log s ++ [Executed (SelectCount (scope ++ conditions))])%list
        /\ log (snd (exists_ self dds f s))
           = (log s ++ [Executed (SelectCount (scope ++ conditions))])%list
        /\ (forall limit offset sb so jl ll, orderable self sb ->
              exists q, q_where q = (scope ++ conditions)%list
                /\ log (snd (where_ self limit offset sb so jl ll dds f s))
                   = (log s ++ [Executed (Select q)])%list)
        /\ (forall sb so jl ll, orderable self sb -> keyword_clash f = None ->
              exists q, q_where q = (scope ++ conditions)%list
                /\ log (snd (find_by self sb so jl ll dds f s))
                   = (log s ++ [Executed (Select q)])%list
                /\ log (snd (find_by_or_raise self sb so jl ll dds f s))
                   = (log s ++ [Executed (Select q)])%list)
        /\ (forall id id_conditions,
              __get_conditions (model self) [("id", id)] = inr id_conditions ->
              (forall sb so jl ll, orderable self sb ->
                 exists q, q_where q = (scope ++ id_conditions)%list
                   /\ log (snd (find self id sb so jl ll dds s))
                      = (log s ++ [Executed (Select q)])%list)
              /\ (dds = false ->
                  exists q, q_where q = (scope ++ id_conditions)%list
                    /\ (forall update_params, exists rest,
                          log (snd (update self id update_params s))
                          = (log s ++ Executed (Select q) :: rest)%list
                          /\ forall stmt, ~ In (Executed stmt) rest)
                    /\ (exists rest,
                          log (snd (destroy self id s))
                          = (log s ++ Executed (Select q) :: rest)%list
                          /\ forall stmt, ~ In (Executed stmt) rest)))).
Proof.
  intros Hf.
  split; [intros updates; now rewrite (update_all_runs self s updates f Hf) |].
  split; [now rewrite (destroy_all_runs self s f Hf) |].
  intros dds scope Hscope.
  assert (Hscoped : forall g cs, __get_conditions (model self) g = inr cs ->
                      scoped_conditions self dds g = inr (scope ++ cs)%list).
  { intros g cs Hg. unfold scoped_conditions. rewrite Hg.
    destruct dds; simpl in *.
    - now injection Hscope as <-.
    - now rewrite Hscope. }
  split; [now rewrite (count_runs self s dds f (Hscoped _ _ Hf)) |].
  split; [now rewrite (exists_runs self s dds f (Hscoped _ _ Hf)) |].
  split.
  { intros limit offset sb so jl ll Ho.
    destruct (generate_query_built self limit offset sb so jl ll dds f (Hscoped _ _ Hf) Ho)
      as (q & Hq & Hw & _).
    exists q. split; [exact Hw |]. now rewrite (where_runs self s _ _ _ _ _ _ _ _ Hq). }
  split.
  { intros sb so jl ll Ho Hk.
    destruct (generate_query_built self 1 0 sb so jl ll dds f (Hscoped _ _ Hf) Ho)
      as (q & Hq & Hw & _).
    exists q. split; [exact Hw |]. split.
    - now rewrite (find_by_runs self s _ _ _ _ _ _ Hk Hq).
    - now rewrite (find_by_or_raise_runs self s _ _ _ _ _ _ Hk Hq). }
  intros id idc Hid. split.
  { intros sb so jl ll Ho.
    destruct (generate_query_built self 1 0 sb so jl ll dds [("id", id)] (Hscoped _ _ Hid) Ho)
      as (q & Hq & Hw & _).
    exists q. split; [exact Hw |]. now rewrite (find_runs self s _ _ _ _ _ _ Hq). }
  intros ->.
  destruct (generate_query_built self 1 0 None "asc" None None false [("id", id)]
              (Hscoped _ _ Hid) I) as (q & Hq & Hw & _).
  exists q. split; [exact Hw |]. split.
  - intros update_params. exact (update_log self s id update_params Hq).
  - exact (destroy_log self s id Hq).
Qed.

(** With [default_scope = {"is_active": True}] and the filter [age__gte=30]:
    the bulk update carries the age condition alone, the count carries the
    scope first. *)
Lemma C1_witness :
  log (snd (update_all active_users [("name", VStr "x")] [("age__gte", VInt 30)] three_users))
  = [Executed (Update [Ge (column_of User "age") (VInt 30)] [("name", VStr "x")]); Committed]
  /\ log (snd (count active_users false [("age__gte", VInt 30)] three_users))
     = [Executed (SelectCount [Eq (column_of User "is_active") (VBool true);
                               Ge (column_of User "age") (VInt 30)])].
Proof.
  pose proof (@C1_default_scope_in_reads_not_in_bulk active_users three_users
                [("age__gte", VInt 30)] [Ge (column_of User "age") (VInt 30)] eq_refl)
    as (Hupdate & _ & Hreads).
  destruct (Hreads false [Eq (column_of User "is_active") (VBool true)] eq_refl)
    as (Hcount & _).
  split.
  - exact (Hupdate [("name", VStr "x")]).
  - exact Hcount.
Defined.

(** ** C2: names that do not resolve *)

Lemma scoped_failure_reads (self : repository) (dds : bool) (f : fields_t)
    (e : exception) :
  scoped_conditions self dds f = inl e ->
  reads_fail_before_execution self dds f e.
Proof.
  intros H. unfold reads_fail_before_execution, fails_before_execution.
  split; [| split; [| split]].
  - intros limit offset sb so jl ll s. apply where_raises.
    now apply generate_query_scope_failure.
  - intros Hk sb so jl ll. split; intros s.
    + apply find_by_raises; [exact Hk | now apply generate_query_scope_failure].
    + apply find_by_or_raise_raises; [exact Hk | now apply generate_query_scope_failure].
  - intros s. now apply count_raises.
  - intros s. now apply exists_raises.
Qed.

Lemma generate_query_order_failure (self : repository) (limit offset : Z)
    (sb so : string) (jl ll : option (list string)) (dds : bool) (f : fields_t)
    (conditions : list predicate) :
  scoped_conditions self dds f = inr conditions ->
  sb <> EmptyString ->
  getattr (model self) sb = None ->
  __generate_query self limit offset (Some sb) so jl ll dds f
  = inl (no_attribute (model self) sb).
Proof.
  intros Hc Hne Hnone. unfold __generate_query. rewrite Hc.
  destruct sb as [| c rest]; [congruence |].
  unfold _apply_order_by. now rewrite Hnone.
Qed.

(** C2, as the code has it.  For a key [key] of a filter set: a bare key, or
    the field of [field__op], that the model does not resolve, a
    relationship name that the model does not resolve, and a target field
    that the relationship's target class does not resolve, each make the
    compilation of the key fail with an AttributeError whose message names
    the class and the name.  A filter set that holds a failing key fails,
    with the error of its first failing key.  When the filter set an
    operation compiles fails, the operation fails with that error and the
    session is untouched: so do the bulk operations on the explicit filters,
    the reads on the default scope and the explicit filters, and [find],
    [update] and [destroy] on the id lookup.  A [sorted_by] that is not the
    empty string and does not resolve makes [where], [find_by],
    [find_by_or_raise] and [find] fail the same way, naming the model and
    the field.  ([find_by] and [find_by_or_raise] are meant for filter sets
    without a key named [limit] or [offset]: such a key clashes with the
    keywords they pass to [__generate_query] and never reaches the
    compiler.) *)
Theorem C2_unresolved_names_fail_before_execution
    (self : repository) (key : string) (val : value) :
  (contains_dunder key = false -> getattr (model self) key = None ->
     condition_for (model self) key val = inl (no_attribute (model self) key))
  /\ (forall field op,
        contains_dunder key = true -> parts_and_op key = ([field], op) ->
        getattr (model self) field = None ->
        condition_for (model self) key val = inl (no_attribute (model self) field))
  /\ (forall rel field rest op,
        contains_dunder key = true -> parts_and_op key = (rel :: field :: rest, op) ->
        getattr (model self) rel = None ->
        condition_for (model self) key val = inl (no_relationship (model self) rel))
  /\ (forall rel field rest op target,
        contains_dunder key = true -> parts_and_op key = (rel :: field :: rest, op) ->
        getattr (model self) rel = Some (Relationship target) ->
        getattr target field = None ->
        condition_for (model self) key val = inl (no_attribute target field))
  /\ (forall before after conditions e,
        __get_conditions (model self) before = inr conditions ->
        condition_for (model self) key val = inl e ->
        __get_conditions (model self) (before ++ (key, val) :: after)%list = inl e)
  /\ (forall f e,
        In (key, val) f ->
        condition_for (model self) key val = inl e ->
        exists e', __get_conditions (model self) f = inl e')
  /\ (forall f e,
        __get_conditions (model self) f = inl e ->
        bulk_fail_before_execution self f e
        /\ reads_fail_before_execution self true f e
        /\ (forall scope,
              __get_conditions (model self) (default_scope self) = inr scope ->
              reads_fail_before_execution self false f e))
  /\ (forall f e,
        __get_conditions (model self) (default_scope self) = inl e ->
        reads_fail_before_execution self false f e)
  /\ (forall id dds e,
        scoped_conditions self dds [("id", id)] = inl e ->
        (forall sb so jl ll, fails_before_execution (find self id sb so jl ll dds) e)
        /\ (dds = false ->
            (forall update_params, fails_before_execution (update self id update_params) e)
            /\ fails_before_execution (destroy self id) e))
  /\ (forall sb dds f conditions,
        sb <> EmptyString -> getattr (model self) sb = None ->
        scoped_conditions self dds f = inr conditions ->
        (forall limit offset so jl ll,
            fails_before_execution (where_ self limit offset (Some sb) so jl ll dds f)
              (no_attribute (model self) sb))
        /\ (keyword_clash f = None ->
            forall so jl ll,
              fails_before_execution (find_by self (Some sb) so jl ll dds f)
                (no_attribute (model self) sb)
              /\ fails_before_execution (find_by_or_raise self (Some sb) so jl ll dds f)
                   (no_attribute (model self) sb)))
  /\ (forall sb dds id conditions,
        sb <> EmptyString -> getattr (model self) sb = None ->
        scoped_conditions self dds [("id", id)] = inr conditions ->
        forall so jl ll,
          fails_before_execution (find self id (Some sb) so jl ll dds)
            (no_attribute (model self) sb)).
Proof.
  split; [| split; [| split; [| split; [| split; [| split;
    [| split; [| split; [| split; [| split]]]]]]]]].
  - intros Hd Hnone. unfold condition_for. now rewrite Hd, Hnone.
  - intros field op Hd Hparts Hnone. unfold condition_for.
    now rewrite Hd, Hparts, Hnone.
  - intros rel field rest op Hd Hparts Hnone. unfold condition_for.
    now rewrite Hd, Hparts, Hnone.
  - intros rel field rest op target Hd Hparts Hrel Hnone. unfold condition_for.
    rewrite Hd, Hparts, Hrel. simpl. now rewrite Hnone.
  - intros before after conditions e. apply get_conditions_first_failure.
  - intros f e. apply get_conditions_some_failure.
  - intros f e Hf. split; [| split].
    + split.
      * intros updates s. now apply update_all_raises.
      * intros s. now apply destroy_all_raises.
    + apply scoped_failure_reads. unfold scoped_conditions. simpl. now rewrite Hf.
    + intros scope Hscope. apply scoped_failure_reads.
      unfold scoped_conditions. simpl. now rewrite Hscope, Hf.
  - intros f e Hscope. apply scoped_failure_reads.
    unfold scoped_conditions. simpl. now rewrite Hscope.
  - intros id dds e Hid. split.
    + intros sb so jl ll s. apply find_raises. now apply generate_query_scope_failure.
    + intros ->. split.
      * intros update_params s. apply update_raises.
        unfold lookup_query. now apply generate_query_scope_failure.
      * intros s. apply destroy_raises.
        unfold lookup_query. now apply generate_query_scope_failure.
  - intros sb dds f conditions Hne Hnone Hc. split.
    + intros limit offset so jl ll s. apply where_raises.
      now apply generate_query_order_failure with (conditions := conditions).
    + intros Hk so jl ll. split; intros s.
      * apply find_by_raises; [exact Hk |].
        now apply generate_query_order_failure with (conditions := conditions).
      * apply find_by_or_raise_raises; [exact Hk |].
        now apply generate_query_order_failure with (conditions := conditions).
  - intros sb dds id conditions Hne Hnone Hc so jl ll s. apply find_raises.
    now apply generate_query_order_failure with (conditions := conditions).
Qed.

(** On the sample users: the unknown field [nickname] stops the compilation
    of a filter set after a good key, [where] fails with that error and the
    session is as before; so it is with [sorted_by="nickname"]. *)
Lemma C2_witness :
  condition_for User "nickname" (VStr "x") = inl (no_attribute User "nickname")
  /\ where_ users 100 0 None "asc" None None false
       [("name", VStr "Ann"); ("nickname", VStr "x")] three_users
     = (inl (AttributeError "User has no attribute 'nickname'"), three_users)
  /\ where_ users 100 0 (Some "nickname") "asc" None None false [] three_users
     = (inl (AttributeError "User has no attribute 'nickname'"), three_users).
Proof.
  pose proof (@C2_unresolved_names_fail_before_execution users "nickname" (VStr "x"))
    as (Hbare & _ & _ & _ & Hfirst & _ & Hops & _ & _ & Hsorted & _).
  assert (Hkey : condition_for User "nickname" (VStr "x") = inl (no_attribute User "nickname")).
  { exact (Hbare eq_refl eq_refl). }
  split; [exact Hkey |]. split.
  - pose proof (Hfirst [("name", VStr "Ann")] [] _ _ eq_refl Hkey) as Hset.
    destruct (Hops _ _ Hset) as (_ & _ & Hreads).
    destruct (Hreads [] eq_refl) as (Hwhere & _).
    exact (Hwhere 100%Z 0%Z None "asc" None None three_users).
  - assert (Hne : "nickname" <> EmptyString) by discriminate.
    destruct (Hsorted "nickname" false [] [] Hne eq_refl eq_refl) as (Hwhere & _).
    exact (Hwhere 100%Z 0%Z "asc" None None three_users).
Defined.

(** C2 as stated fails on the empty [sorted_by]: no attribute of the model
    has the empty name, yet [where] with the empty string for [sorted_by]
    raises nothing; it runs the unordered select and returns the rows. *)
Lemma C2_empty_sorted_by_is_not_an_error :
  getattr (model users) EmptyString = None
  /\ fst (where_ users 100 0 (Some EmptyString) "asc" None None false [] three_users)
     = inr (table three_users)
  /\ log (snd (where_ users 100 0 (Some EmptyString) "asc" None None false [] three_users))
     = [Executed (Select {| q_where := []; q_options := []; q_order_by := None;
                            q_limit := Some 100%Z; q_offset := Some 0%Z |})].
Proof. repeat split. Qed.

(** ** C3: filters that match no row *)

(** C3, as the code has it.  Let the filter set (with the default scope,
    unless disabled) compile, and let no row of the table satisfy it.  Then
    [find_by] returns [None] and raises nothing, and [find_by_or_raise]
    raises NoResultFound with a message naming the model and the filter set;
    both after the one select.  Among the operations that look one row up,
    [find_by] alone returns normally: [find], [update] and [destroy] raise
    NoResultFound for an id that matches nothing.  The operations over sets
    of rows return normally too: [where] the empty list, [count] 0,
    [exists] false, [update_all] and [destroy_all] 0. *)
Theorem C3_zero_matches
    (self : repository) (s : session) (dds : bool) (f : fields_t)
    (conditions : list predicate)
    (sb : option string) (so : string) (jl ll : option (list string)) :
  scoped_conditions self dds f = inr conditions ->
  filter (matches conditions) (table s) = [] ->
  orderable self sb ->
  keyword_clash f = None ->
  (exists q,
      q_where q = conditions
      /\ find_by self sb so jl ll dds f s = (inr None, after_select s (Select q))
      /\ find_by_or_raise self sb so jl ll dds f s
         = (inl (not_found_attributes self f), after_select s (Select q)))
  /\ (forall limit offset, fst (where_ self limit offset sb so jl ll dds f s) = inr [])
  /\ fst (count self dds f s) = inr 0%Z
  /\ fst (exists_ self dds f s) = inr false
  /\ (forall bulk_conditions updates,
        __get_conditions (model self) f = inr bulk_conditions ->
        filter (matches bulk_conditions) (table s) = [] ->
        fst (update_all self updates f s) = inr 0%Z
        /\ fst (destroy_all self f s) = inr 0%Z)
  /\ (forall id id_conditions,
        scoped_conditions self dds [("id", id)] = inr id_conditions ->
        filter (matches id_conditions) (table s) = [] ->
        fst (find self id sb so jl ll dds s) = inl (not_found_id self id))
  /\ (forall id id_conditions update_params,
        scoped_conditions self false [("id", id)] = inr id_conditions ->
        filter (matches id_conditions) (table s) = [] ->
        fst (update self id update_params s) = inl (not_found_id self id)
        /\ fst (destroy self id s) = inl (not_found_id self id)).
Proof.
  intros Hc Hzero Ho Hk.
  split; [| split; [| split; [| split; [| split; [| split]]]]].
  - destruct (generate_query_built self 1 0 sb so jl ll dds f Hc Ho) as (q & Hq & Hw & _).
    assert (Hrows : select_rows q (table s) = []).
    { apply select_rows_none. now rewrite Hw. }
    exists q. split; [exact Hw |]. split.
    + rewrite (find_by_runs self s sb so jl ll dds f Hk Hq). now rewrite Hrows.
    + rewrite (find_by_or_raise_runs self s sb so jl ll dds f Hk Hq). now rewrite Hrows.
  - intros limit offset.
    destruct (generate_query_built self limit offset sb so jl ll dds f Hc Ho)
      as (q & Hq & Hw & _).
    rewrite (where_runs self s limit offset sb so jl ll dds f Hq). simpl.
    rewrite select_rows_none; [reflexivity | now rewrite Hw].
  - rewrite (count_runs self s dds f Hc). unfold matching. now rewrite Hzero.
  - rewrite (exists_runs self s dds f Hc). unfold matching. now rewrite Hzero.
  - intros bc updates Hb Hbz. split.
    + rewrite (update_all_runs self s updates f Hb). unfold matching. now rewrite Hbz.
    + rewrite (destroy_all_runs self s f Hb). unfold matching. now rewrite Hbz.
  - intros id idc Hid Hidz.
    destruct (generate_query_built self 1 0 sb so jl ll dds [("id", id)] Hid Ho)
      as (q & Hq & Hw & _).
    rewrite (find_runs self s id sb so jl ll dds Hq).
    rewrite select_rows_none; [reflexivity | now rewrite Hw].
  - intros id idc update_params Hid Hidz.
    destruct (generate_query_built self 1 0 None "asc" None None false [("id", id)] Hid I)
      as (q & Hq & Hw & _).
    assert (Hrows : select_rows q (table s) = []).
    { apply select_rows_none. now rewrite Hw. }
    split.
    + now rewrite (update_not_found self s id update_params Hq Hrows).
    + now rewrite (destroy_not_found self s id Hq Hrows).
Qed.

(** No sample user is called Zed: [find_by] returns nothing, and
    [find_by_or_raise] raises with the model and the filter set in the
    message. *)
Lemma C3_witness :
  fst (find_by users None "asc" None None false [("name", VStr "Zed")] three_users)
  = inr None
  /\ fst (find_by_or_raise users None "asc" None None false [("name", VStr "Zed")] three_users)
     = inl (NoResultFound "User with attributes {'name': 'Zed'} not found.").
Proof.
  pose proof (@C3_zero_matches users three_users false [("name", VStr "Zed")]
                [Eq (column_of User "name") (VStr "Zed")] None "asc" None None
                eq_refl eq_refl I eq_refl)
    as ((q & _ & Hfind & Hraise) & _).
  split.
  - now rewrite Hfind.
  - now rewrite Hraise.
Defined.

(** C3 as stated fails on its last part: [find_by] is not the only operation
    for which zero matches is a normal result.  For the same filter, which no
    sample user satisfies, [where], [count], [exists], [update_all] and
    [destroy_all] return normally. *)
Lemma C3_find_by_is_not_the_only_one :
  filter (matches [Eq (column_of User "name") (VStr "Zed")]) (table three_users) = []
  /\ fst (where_ users 100 0 None "asc" None None false [("name", VStr "Zed")] three_users)
     = inr []
  /\ fst (count users false [("name", VStr "Zed")] three_users) = inr 0%Z
  /\ fst (exists_ users false [("name", VStr "Zed")] three_users) = inr false
  /\ fst (update_all users [("age", VInt 1)] [("name", VStr "Zed")] three_users) = inr 0%Z
  /\ fst (destroy_all users [("name", VStr "Zed")] three_users) = inr 0%Z.
Proof. repeat split. Qed.

(** ** C4: a last segment that is not an operator *)

(** Segments after the second are never looked at: a key with the segments
    [rel], [field] and more compiles as the key with [rel] and [field]
    alone. *)
Lemma trailing_segments_ignored (model : mapped_class) (key key' : string)
    (rel field op : string) (rest : list string) (val : value) :
  contains_dunder key = true -> contains_dunder key' = true ->
  parts_and_op key = (rel :: field :: rest, op) ->
  parts_and_op key' = ([rel; field], op) ->
  condition_for model key val = condition_for model key' val.
Proof.
  intros Hd Hd' Hp Hp'. unfold condition_for. now rewrite Hd, Hd', Hp, Hp'.
Qed.

(** With exactly two segments the claim holds: a key [field__junk] whose
    last segment is no operator is never compiled to a comparison on
    [field]; it fails, or [field] is a relationship and [junk] a column of
    its target. *)
Lemma unknown_operator_two_segments (model : mapped_class) (key field junk : string)
    (val : value) :
  contains_dunder key = true ->
  parts_and_op key = ([field; junk], "exact") ->
  (exists e, condition_for model key val = inl e)
  \/ (exists target,
        getattr model field = Some (Relationship target)
        /\ condition_for model key val
           = inr (Any (column_of model field) (Eq (column_of target junk) val))).
Proof.
  intros Hd Hparts. unfold condition_for. rewrite Hd, Hparts.
  destruct (getattr model field) as [[| target | target |] |]; simpl; eauto.
  - destruct (getattr target junk); simpl; eauto.
  - destruct (getattr target junk); simpl; eauto.
Qed.

(** C4, at the failing input.  [bogus] is no operator, and the key
    [posts__title__bogus] still compiles: to the very condition of
    [posts__title], an equality on the title of the related posts.  Nothing
    fails, and [where] runs the query and returns the author whose post has
    that title. *)
Theorem C4_unknown_operator_after_a_hop_is_accepted :
  in_OPERATORS "bogus" = false
  /\ parts_and_op "posts__title__bogus" = (["posts"; "title"; "bogus"], "exact")
  /\ __get_conditions Author [("posts__title__bogus", VStr "Hello")]
     = inr [Any (column_of Author "posts") (Eq (column_of Post "title") (VStr "Hello"))]
  /\ __get_conditions Author [("posts__title__bogus", VStr "Hello")]
     = __get_conditions Author [("posts__title", VStr "Hello")]
  /\ fst (where_ authors 100 0 None "asc" None None false
            [("posts__title__bogus", VStr "Hello")] two_authors)
     = inr [ann].
Proof.
  split; [reflexivity |]. split; [reflexivity |]. split; [reflexivity |].
  split.
  - unfold __get_conditions.
    now rewrite (@trailing_segments_ignored Author "posts__title__bogus" "posts__title"
                   "posts" "title" "exact" ["bogus"] (VStr "Hello")
                   eq_refl eq_refl eq_refl eq_refl).
  - reflexivity.
Qed.

(** ** C5: one-hop relationship filters *)


Lemma unique_distinct (l : list row) :
  forall seen,
    NoDup (map oid (unique seen l))
    /\ forall r, In r (unique seen l) -> ~ In (oid r) seen /\ In r l.
Proof.
  induction l as [| a l IH]; intros seen; simpl.
  - split; [constructor | intros r []].
  - destruct (existsb (Nat.eqb (oid a)) seen) eqn:Hseen.
    + destruct (IH seen) as [Hnd Hin]. split; [exact Hnd |].
      intros r Hr. destruct (Hin r Hr). auto.
    + destruct (IH (oid a :: seen)) as [Hnd Hin]. split.
      * simpl. constructor; [| exact Hnd].
        intros Hmem. apply in_map_iff in Hmem as (r & Heq & Hr).
        destruct (Hin r Hr) as [Hnot _]. apply Hnot. left. now symmetry.
      * intros r [<- | Hr].
        -- split; [| now left].
           intros Hmem.
           assert (Hex : existsb (Nat.eqb (oid a)) seen = true).
           { apply existsb_exists. exists (oid a). split; [exact Hmem | apply Nat.eqb_refl]. }
           congruence.
        -- destruct (Hin r Hr) as [Hnot Hl]. split; [| now right].
           intros Hmem. apply Hnot. now right.
Qed.


Lemma append_empty_r (s : string) : s ++ EmptyString = s.
Proof. induction s as [| c s IH]; simpl; [reflexivity | now rewrite IH]. Qed.

Lemma append_assoc (a b c : string) : (a ++ b) ++ c = a ++ b ++ c.
Proof. induction a as [| x a IH]; simpl; [reflexivity | now rewrite IH]. Qed.

Lemma split_from_step (current : string) (c c' : ascii) (rest : string) :
  split_from current (String c (String c' rest))
  = if is_underscore c && is_underscore c'
    then current :: split_from EmptyString rest
    else split_from (current ++ String c EmptyString) (String c' rest).
Proof. reflexivity. Qed.

Lemma contains_dunder_step (c c' : ascii) (rest : string) :
  contains_dunder (String c (String c' rest))
  = (is_underscore c && is_underscore c') || contains_dunder (String c' rest).
Proof. reflexivity. Qed.

(** A segment followed by the separator is split off whole. *)
Lemma split_from_segment (seg : string) :
  forall current rest,
    segment seg ->
    split_from current (seg ++ "__" ++ rest) = (current ++ seg) :: split_from EmptyString rest.
Proof.
  induction seg as [| c seg IH]; intros current rest [Hno Hend].
  - simpl. now rewrite append_empty_r.
  - destruct seg as [| c' seg'].
    + simpl in Hend. simpl. rewrite Hend. reflexivity.
    + rewrite contains_dunder_step in Hno.
      apply orb_false_iff in Hno as [Hboth Hno].
      change ((String c (String c' seg') ++ "__" ++ rest))
        with (String c (String c' (seg' ++ "__" ++ rest))).
      rewrite split_from_step, Hboth.
      change (String c' (seg' ++ "__" ++ rest)) with (String c' seg' ++ "__" ++ rest).
      rewrite (IH (current ++ String c EmptyString) rest).
      * now rewrite append_assoc.
      * split; [exact Hno | exact Hend].
Qed.

(** A last segment without the separator is one part. *)
Lemma split_from_last (seg : string) :
  forall current,
    contains_dunder seg = false ->
    split_from current seg = [current ++ seg].
Proof.
  induction seg as [| c seg IH]; intros current Hno.
  - simpl. now rewrite append_empty_r.
  - destruct seg as [| c' seg'].
    + reflexivity.
    + rewrite contains_dunder_step in Hno.
      apply orb_false_iff in Hno as [Hboth Hno].
      rewrite split_from_step, Hboth.
      rewrite (IH (current ++ String c EmptyString) Hno). now rewrite append_assoc.
Qed.

Lemma contains_dunder_joined (a b : string) : contains_dunder (a ++ "__" ++ b) = true.
Proof.
  induction a as [| c a IH]; [reflexivity |].
  change (String c a ++ "__" ++ b) with (String c (a ++ "__" ++ b)).
  destruct (a ++ "__" ++ b) as [| c' t] eqn:Ht; [discriminate |].
  rewrite contains_dunder_step, IH. apply orb_true_r.
Qed.

Lemma operator_name_plain (op : string) :
  in_OPERATORS op = true -> contains_dunder op = false.
Proof.
  unfold in_OPERATORS, OPERATORS. cbn [Py.get].
  repeat match goal with
         | |- context [String.eqb ?name op] =>
             destruct (String.eqb_spec name op) as [<- | _]; [intros _; reflexivity |]
         end.
  discriminate.
Qed.





(** ** C6: the [in] operator *)

Lemma value_nested_ind (P : value -> Prop) :
  P VNone ->
  (forall b, P (VBool b)) ->
  (forall z, P (VInt z)) ->
  (forall s, P (VStr s)) ->
  (forall l, Forall P l -> P (VList l)) ->
  (forall l, Forall P l -> P (VTuple l)) ->
  forall v, P v.
Proof.
  intros HNone HBool HInt HStr HList HTuple.
  fix IH 1.
  intros [| b | z | s | l | l].
  - exact HNone.
  - apply HBool.
  - apply HInt.
  - apply HStr.
  - apply HList. revert l. fix IHl 1.
    intros [| x xs]; constructor; [apply IH | apply IHl].
  - apply HTuple. revert l. fix IHl 1.
    intros [| x xs]; constructor; [apply IH | apply IHl].
Qed.

Lemma value_eqb_items (l : list value) :
  Forall (fun x => forall y, value_eqb x y = true <-> x = y) l ->
  forall l',
    (fix all2 (l1 l2 : list value) {struct l1} : bool :=
       match l1, l2 with
       | [], [] => true
       | x :: l1', y :: l2' => value_eqb x y && all2 l1' l2'
       | _, _ => false
       end) l l' = true <-> l = l'.
Proof.
  induction 1 as [| x l Hx Hl IH]; intros [| y l'];
    try (split; [discriminate | discriminate]); try (split; reflexivity).
  rewrite andb_true_iff, Hx, IH. split.
  - intros [-> ->]. reflexivity.
  - intros H. injection H as -> ->. split; reflexivity.
Qed.

Lemma value_eqb_eq (a b : value) : value_eqb a b = true <-> a = b.
Proof.
  revert b. induction a as [| x | x | x | l IH | l IH] using value_nested_ind;
    intros [| y | y | y | l' | l']; simpl;
    try (split; [discriminate | discriminate]); try (split; reflexivity).
  - rewrite Bool.eqb_true_iff. split; [now intros -> | now intros [= ->]].
  - rewrite Z.eqb_eq. split; [now intros -> | now intros [= ->]].
  - rewrite String.eqb_eq. split; [now intros -> | now intros [= ->]].
  - rewrite (value_eqb_items IH l'). split; [now intros -> | now intros [= ->]].
  - rewrite (value_eqb_items IH l'). split; [now intros -> | now intros [= ->]].
Qed.

(** C6, as the code has it.  For a Python list the [in] operator builds a
    condition that holds exactly when the column's value is an element of
    the list.  For any value that is not a list (a tuple and a string
    included) it builds the membership in the one-element list of that
    value, which holds exactly when the column's value equals it. *)
Theorem C6_in_takes_lists_only (col : column) (val : value) (fields : fields_t) :
  (forall items,
      val = VList items ->
      exists p, apply_operator "in" col val = inr p
        /\ (holds_on_fields fields p = true <-> In (field_value fields col) items))
  /\ (isinstance_list val = false ->
      exists p, apply_operator "in" col val = inr p
        /\ p = In_ col [val]
        /\ (holds_on_fields fields p = true <-> field_value fields col = val)).
Proof.
  split.
  - intros items ->. exists (In_ col items). split; [reflexivity |].
    simpl. rewrite existsb_exists. split.
    + intros (x & Hin & Heq). apply value_eqb_eq in Heq. now subst.
    + intros Hin. exists (field_value fields col). split; [exact Hin |].
      now apply value_eqb_eq.
  - intros Hnot. exists (In_ col [val]). split; [| split; [reflexivity |]].
    + destruct val; try reflexivity. discriminate.
    + simpl. rewrite orb_false_r. apply value_eqb_eq.
Qed.

(** [age__in=[18, 80]] holds on a row of age 80; [age__in=18] holds on a row
    of age 18. *)
Lemma C6_witness :
  holds_on_fields [("age", VInt 80)]
    (In_ (column_of User "age") [VInt 18; VInt 80]) = true
  /\ holds_on_fields [("age", VInt 18)] (In_ (column_of User "age") [VInt 18]) = true.
Proof.
  split.
  - destruct (@C6_in_takes_lists_only (column_of User "age") (VList [VInt 18; VInt 80])
                [("age", VInt 80)]) as (Hlist & _).
    destruct (Hlist _ eq_refl) as (p & Hp & Hiff).
    injection Hp as <-. apply Hiff. simpl. auto.
  - destruct (@C6_in_takes_lists_only (column_of User "age") (VInt 18)
                [("age", VInt 18)]) as (_ & Hsingle).
    destruct (Hsingle eq_refl) as (p & _ & -> & Hiff).
    apply Hiff. reflexivity.
Defined.

(** C6 as stated fails on a sequence that is not a list.  The tuple
    [(18, 80)] is a sequence and 18 is one of its elements, but
    [age__in=(18, 80)] compiles to the membership in the one-element list
    holding the tuple, which a row of age 18 does not satisfy. *)
Lemma C6_tuple_is_one_candidate :
  is_sequence (VTuple [VInt 18; VInt 80]) = true
  /\ In (VInt 18) [VInt 18; VInt 80]
  /\ apply_operator "in" (column_of User "age") (VTuple [VInt 18; VInt 80])
     = inr (In_ (column_of User "age") [VTuple [VInt 18; VInt 80]])
  /\ __get_conditions User [("age__in", VTuple [VInt 18; VInt 80])]
     = inr [In_ (column_of User "age") [VTuple [VInt 18; VInt 80]]]
  /\ holds_on_fields [("age", VInt 18)]
       (In_ (column_of User "age") [VTuple [VInt 18; VInt 80]]) = false.
Proof.
  split; [reflexivity |]. split; [now left |]. repeat split.
Qed.

(** ** C8: the direction of the ordering *)

(** C8, as the code has it.  For [where], [find_by], [find_by_or_raise] and
    [find], the operations that take [sorted_by] and [sorted_order]: when
    [sorted_by] is not empty and names a column of the model and the filters
    compile, the query is ordered ascending on that column when
    [sorted_order.lower()] is ["asc"], so for ["asc"] itself and for ["ASC"]
    or ["Asc"] alike, and descending for every other value; and that query
    is the statement the operation executes. *)
Theorem C8_sorted_order_is_case_folded
    (self : repository) (sb so : string) (dds : bool) (f : fields_t)
    (conditions : list predicate) (jl ll : option (list string)) :
  sb <> EmptyString ->
  getattr (model self) sb = Some Column ->
  scoped_conditions self dds f = inr conditions ->
  (lower so = "asc" -> ordering_for self sb so = Asc (column_of (model self) sb))
  /\ (so = "asc" -> ordering_for self sb so = Asc (column_of (model self) sb))
  /\ (lower so <> "asc" -> ordering_for self sb so = Desc (column_of (model self) sb))
  /\ (forall limit offset s,
        exists q,
          __generate_query self limit offset (Some sb) so jl ll dds f = inr q
          /\ q_order_by q = Some (ordering_for self sb so)
          /\ where_ self limit offset (Some sb) so jl ll dds f s
             = (inr (unique [] (select_rows q (table s))), after_select s (Select q)))
  /\ (keyword_clash f = None ->
      forall s,
        exists q,
          q_order_by q = Some (ordering_for self sb so)
          /\ log (snd (find_by self (Some sb) so jl ll dds f s))
             = (log s ++ [Executed (Select q)])%list
          /\ log (snd (find_by_or_raise self (Some sb) so jl ll dds f s))
             = (log s ++ [Executed (Select q)])%list)
  /\ (forall id id_conditions s,
        scoped_conditions self dds [("id", id)] = inr id_conditions ->
        exists q,
          q_order_by q = Some (ordering_for self sb so)
          /\ log (snd (find self id (Some sb) so jl ll dds s))
             = (log s ++ [Executed (Select q)])%list).
Proof.
  intros Hne Hattr Hc.
  assert (Ho : orderable self (Some sb)).
  { destruct sb as [| c rest]; [congruence | simpl; congruence]. }
  assert (Hord : forall g cs limit offset,
            scoped_conditions self dds g = inr cs ->
            exists q,
              __generate_query self limit offset (Some sb) so jl ll dds g = inr q
              /\ q_order_by q = Some (ordering_for self sb so)).
  { intros g cs limit offset Hg.
    destruct (generate_query_built self limit offset (Some sb) so jl ll dds g Hg Ho)
      as (q & Hq & _ & _ & _ & Hby).
    exists q. split; [exact Hq |].
    destruct sb as [| c rest]; [congruence | exact Hby]. }
  split; [| split; [| split; [| split; [| split]]]].
  - intros Hl. unfold ordering_for. now rewrite Hl.
  - intros ->. reflexivity.
  - intros Hl. unfold ordering_for.
    destruct (String.eqb_spec (lower so) "asc"); [contradiction | reflexivity].
  - intros limit offset s.
    destruct (Hord f conditions limit offset Hc) as (q & Hq & Hby).
    exists q. split; [exact Hq |]. split; [exact Hby |].
    exact (where_runs self s limit offset (Some sb) so jl ll dds f Hq).
  - intros Hk s.
    destruct (Hord f conditions 1%Z 0%Z Hc) as (q & Hq & Hby).
    exists q. split; [exact Hby |]. split.
    + now rewrite (find_by_runs self s (Some sb) so jl ll dds f Hk Hq).
    + now rewrite (find_by_or_raise_runs self s (Some sb) so jl ll dds f Hk Hq).
  - intros id idc s Hid.
    destruct (Hord [("id", id)] idc 1%Z 0%Z Hid) as (q & Hq & Hby).
    exists q. split; [exact Hby |].
    now rewrite (find_runs self s id (Some sb) so jl ll dds Hq).
Qed.

(** Sorting the sample users by age: ["asc"] orders ascending, ["desc"]
    descending. *)
Lemma C8_witness :
  ordering_for users "age" "asc" = Asc (column_of User "age")
  /\ ordering_for users "age" "desc" = Desc (column_of User "age")
  /\ fst (where_ users 100 0 (Some "age") "desc" None None false [] three_users)
     = inr [user_row 2 "Cid" 80 true; user_row 1 "Bob" 30 false; user_row 3 "Ann" 18 true].
Proof.
  assert (Hne : "age" <> EmptyString) by discriminate.
  assert (Hattr : getattr (model users) "age" = Some Column) by reflexivity.
  pose proof (@C8_sorted_order_is_case_folded users "age" "asc" false [] [] None None
                Hne Hattr eq_refl) as (_ & Hasc & _).
  pose proof (@C8_sorted_order_is_case_folded users "age" "desc" false [] [] None None
                Hne Hattr eq_refl) as (_ & _ & Hdesc & Hwhere & _).
  split; [exact (Hasc eq_refl) |]. split.
  - apply Hdesc. discriminate.
  - destruct (Hwhere 100%Z 0%Z three_users) as (q & Hq & _ & Hrun).
    rewrite Hrun. injection Hq as <-. reflexivity.
Defined.

(** C8 as stated fails on ["ASC"]: it is not the string ["asc"], and the
    order applied is ascending all the same. *)
Lemma C8_uppercase_asc_is_ascending :
  "ASC" <> "asc"
  /\ ordering_for users "age" "ASC" = Asc (column_of User "age")
  /\ __generate_query users 100 0 (Some "age") "ASC" None None false []
     = inr {| q_where := []; q_options := [];
              q_order_by := Some (Asc (column_of User "age"));
              q_limit := Some 100%Z; q_offset := Some 0%Z |}
  /\ fst (where_ users 100 0 (Some "age") "ASC" None None false [] three_users)
     = inr [user_row 3 "Ann" 18 true; user_row 1 "Bob" 30 false; user_row 2 "Cid" 80 true].
Proof.
  split; [discriminate |]. repeat split.
Qed.

(** ** C10: update and destroy under the default scope *)

Lemma hd_filter_unique {A : Type} (f : A -> bool) (l : list A) (a : A) :
  In a l -> f a = true ->
  (forall x, In x l -> f x = true -> x = a) ->
  hd_error (filter f l) = Some a.
Proof.
  induction l as [| x l IH]; intros Hin Hfa Huniq; [contradiction |].
  simpl. destruct (f x) eqn:Hfx.
  - simpl. f_equal. apply Huniq; [now left | exact Hfx].
  - destruct Hin as [-> | Hin]; [congruence |].
    apply IH; [exact Hin | exact Hfa |].
    intros y Hy. apply Huniq. now right.
Qed.

Lemma id_filter_compiles (model : mapped_class) (id : value) :
  getattr model "id" <> None ->
  __get_conditions model [("id", id)] = inr [Eq (column_of model "id") id].
Proof.
  intros H. simpl. unfold condition_for. simpl.
  destruct (getattr model "id"); [reflexivity | contradiction].
Qed.

(** C10.  [update] and [destroy] take an id (and the fields to set) and
    nothing else, and look the row up by [find] with every keyword at its
    default, so under the default scope.  Let the default scope compile, let
    [r] be the one row of the table whose id is [id], and let [r] fail the
    default scope.  Then [update] and [destroy] both raise NoResultFound for
    that id after the one select, and the table is as it was; yet the row is
    there: [find] with the default scope disabled returns it. *)
Theorem C10_update_destroy_cannot_reach_scoped_out_rows
    (self : repository) (s : session) (id : value) (r : row)
    (scope : list predicate) (update_params : fields_t) :
  __get_conditions (model self) (default_scope self) = inr scope ->
  getattr (model self) "id" <> None ->
  In r (table s) ->
  field_value (fields r) (column_of (model self) "id") = id ->
  (forall r', In r' (table s) ->
     field_value (fields r') (column_of (model self) "id") = id -> r' = r) ->
  matches scope r = false ->
  (exists q,
      q_where q = (scope ++ [Eq (column_of (model self) "id") id])%list
      /\ update self id update_params s
         = (inl (not_found_id self id), after_select s (Select q))
      /\ destroy self id s = (inl (not_found_id self id), after_select s (Select q)))
  /\ table (snd (update self id update_params s)) = table s
  /\ table (snd (destroy self id s)) = table s
  /\ fst (find self id None "asc" None None true s) = inr r.
Proof.
  intros Hscope Hid Hin Hrid Hpk Hout.
  pose proof (id_filter_compiles (model self) id Hid) as Hidc.
  assert (Hscoped : scoped_conditions self false [("id", id)]
                    = inr (scope ++ [Eq (column_of (model self) "id") id])%list).
  { unfold scoped_conditions. simpl negb. cbv iota. now rewrite Hscope, Hidc. }
  destruct (generate_query_built self 1 0 None "asc" None None false [("id", id)] Hscoped I)
    as (q & Hq & Hw & _).
  assert (Hrows : select_rows q (table s) = []).
  { apply select_rows_none. rewrite Hw. apply filter_none.
    intros r' Hr'. rewrite matches_app.
    destruct (matches scope r') eqn:Hs; [| reflexivity]. simpl.
    unfold matches. simpl. rewrite andb_true_r.
    destruct (value_eqb (field_value (fields r') (column_of (model self) "id")) id) eqn:He;
      [| reflexivity].
    apply value_eqb_eq in He. rewrite (Hpk r' Hr' He) in Hs. congruence. }
  pose proof (update_not_found self s id update_params Hq Hrows) as Hupdate.
  pose proof (destroy_not_found self s id Hq Hrows) as Hdestroy.
  split; [| split; [| split]].
  - exists q. auto.
  - now rewrite Hupdate.
  - now rewrite Hdestroy.
  - assert (Hunscoped : scoped_conditions self true [("id", id)]
                        = inr [Eq (column_of (model self) "id") id]).
    { unfold scoped_conditions. simpl negb. cbv iota. now rewrite Hidc. }
    destruct (generate_query_built self 1 0 None "asc" None None true [("id", id)]
                Hunscoped I) as (q' & Hq' & Hw' & Hl' & Hoff' & Hby').
    rewrite (find_runs self s id None "asc" None None true Hq').
    unfold select_rows. rewrite Hw', Hl', Hoff', Hby'. simpl.
    assert (Hhd : hd_error (filter (matches [Eq (column_of (model self) "id") id]) (table s))
                  = Some r).
    { apply hd_filter_unique; [exact Hin | |].
      - unfold matches. simpl. rewrite andb_true_r. now apply value_eqb_eq.
      - intros x Hx Hm. apply Hpk; [exact Hx |].
        unfold matches in Hm. simpl in Hm. rewrite andb_true_r in Hm.
        now apply value_eqb_eq. }
    destruct (filter (matches [Eq (column_of (model self) "id") id]) (table s))
      as [| x l]; [discriminate |].
    simpl in Hhd. injection Hhd as ->. reflexivity.
Qed.

(** Bob is the inactive sample user: under [default_scope = {"is_active":
    True}] neither [update] nor [destroy] reaches him, and the table stays as
    it is. *)
Lemma C10_witness :
  fst (update active_users (VInt 1) [("name", VStr "Rob")] three_users)
  = inl (NoResultFound "User with id 1 not found.")
  /\ fst (destroy active_users (VInt 1) three_users)
     = inl (NoResultFound "User with id 1 not found.")
  /\ table (snd (destroy active_users (VInt 1) three_users)) = table three_users.
Proof.
  assert (Hid : getattr (model active_users) "id" <> None) by discriminate.
  assert (Hin : In (user_row 1 "Bob" 30 false) (table three_users)) by (now left).
  assert (Hpk : forall r', In r' (table three_users) ->
                  field_value (fields r') (column_of (model active_users) "id") = VInt 1 ->
                  r' = user_row 1 "Bob" 30 false).
  { intros r' [<- | [<- | [<- | []]]] H; [reflexivity | discriminate | discriminate]. }
  pose proof (@C10_update_destroy_cannot_reach_scoped_out_rows active_users three_users
                (VInt 1) (user_row 1 "Bob" 30 false)
                [Eq (column_of User "is_active") (VBool true)] [("name", VStr "Rob")]
                eq_refl Hid Hin eq_refl Hpk eq_refl)
    as ((q & _ & Hupdate & Hdestroy) & _ & Htable & _).
  split; [now rewrite Hupdate |]. split; [now rewrite Hdestroy | exact Htable].
Defined.

(** * Further properties of base.py *)

(** ** The filter compiler on whole filter sets *)

Lemma get_conditions_app (model : mapped_class) (a b : fields_t) :
  __get_conditions model (a ++ b)%list
  = match __get_conditions model a with
    | inl e => inl e
    | inr ca =>
        match __get_conditions model b with
        | inl e => inl e
        | inr cb => inr (ca ++ cb)%list
        end
    end.
Proof.
  induction a as [| [k v] a IH]; simpl.
  - destruct (__get_conditions model b); reflexivity.
  - destruct (condition_for model k v) as [e | c]; [reflexivity |].
    rewrite IH.
    destruct (__get_conditions model a) as [e | ca]; [reflexivity |].
    destruct (__get_conditions model b); reflexivity.
Qed.

Lemma get_conditions_length (model : mapped_class) (f : fields_t) :
  forall conditions,
    __get_conditions model f = inr conditions ->
    List.length conditions = List.length f.
Proof.
  induction f as [| [k v] f IH]; simpl; intros conditions H.
  - now injection H as <-.
  - destruct (condition_for model k v) as [e | c]; [discriminate |].
    destruct (__get_conditions model f) as [e | cs]; [discriminate |].
    injection H as <-. simpl. now rewrite (IH cs eq_refl).
Qed.

(** X1.  The compiler works key by key and keeps every key: a filter set
    that compiles yields one condition per key, in the order of the keys,
    and compiling two filter sets one after the other is compiling their
    concatenation.  So the default scope of a read acts as filters put in
    front of the explicit ones: a key given in both is present twice, and
    the explicit filter does not replace the scope's. *)
Theorem X1_one_condition_per_key (self : repository) (a b : fields_t) :
  __get_conditions (model self) (a ++ b)%list
  = match __get_conditions (model self) a with
    | inl e => inl e
    | inr ca =>
        match __get_conditions (model self) b with
        | inl e => inl e
        | inr cb => inr (ca ++ cb)%list
        end
    end
  /\ (forall conditions,
        __get_conditions (model self) a = inr conditions ->
        List.length conditions = List.length a)
  /\ scoped_conditions self false b
     = __get_conditions (model self) (default_scope self ++ b)%list
  /\ scoped_conditions self true b = __get_conditions (model self) b.
Proof.
  split; [apply get_conditions_app |].
  split; [apply get_conditions_length |].
  split.
  - unfold scoped_conditions. simpl. now rewrite get_conditions_app.
  - unfold scoped_conditions. simpl.
    destruct (__get_conditions (model self) b); reflexivity.
Qed.

(** Under [default_scope = {"is_active": True}] the explicit filter
    [is_active=False] is added to the scope's condition, not put in its
    place. *)
Lemma X1_witness :
  scoped_conditions active_users false [("is_active", VBool false)]
  = inr [Eq (column_of User "is_active") (VBool true);
         Eq (column_of User "is_active") (VBool false)].
Proof.
  destruct (@X1_one_condition_per_key active_users [] [("is_active", VBool false)])
    as (_ & _ & Hscoped & _).
  rewrite Hscoped. reflexivity.
Defined.

(** ** Shapes of keys *)

(** X2.  A bare field name and the same name with the operator [exact]
    compile to the same thing, error or condition, for every name that can
    be a segment. *)
Theorem X2_bare_key_is_exact (model : mapped_class) (field : string) (val : value) :
  segment field ->
  condition_for model (field ++ "__exact") val = condition_for model field val.
Proof.
  intros [Hno Hend].
  assert (Hparts : parts_and_op (field ++ "__" ++ "exact") = ([field], "exact")).
  { unfold parts_and_op, split_dunder.
    rewrite (@split_from_segment field EmptyString "exact" (conj Hno Hend)).
    reflexivity. }
  unfold condition_for.
  change (field ++ "__exact") with (field ++ "__" ++ "exact").
  rewrite contains_dunder_joined, Hparts, Hno.
  destruct (getattr model field); reflexivity.
Qed.

Lemma X2_witness :
  condition_for User "age__exact" (VInt 30) = inr (Eq (column_of User "age") (VInt 30))
  /\ condition_for User "nickname__exact" (VInt 30) = inl (no_attribute User "nickname").
Proof.
  split.
  - exact (@X2_bare_key_is_exact User "age" (VInt 30) (conj eq_refl eq_refl)).
  - exact (@X2_bare_key_is_exact User "nickname" (VInt 30) (conj eq_refl eq_refl)).
Defined.

Lemma operator_never_any (op : string) (col : column) (val : value) (p : predicate) :
  apply_operator op col val = inr p ->
  forall rel criterion, p <> Any rel criterion.
Proof.
  unfold apply_operator, OPERATORS. cbn [Py.get].
  repeat match goal with
         | |- context [String.eqb ?name op] =>
             destruct (String.eqb_spec name op) as [<- | _];
             [intros H; injection H as <-; intros rel criterion;
              try discriminate; destruct val; discriminate |]
         end.
  discriminate.
Qed.

(** X3.  The operator pop comes first: a key of two segments whose second is
    the name of an operator is parsed as the first segment alone with that
    operator.  It fails when the name does not resolve on the model, it is
    the operator applied to the column when the name is a column, and,
    whatever the name is, also a relationship of the model, it is never
    compiled to a relationship hop. *)
Theorem X3_operator_suffix_is_never_a_hop
    (model : mapped_class) (name op : string) (val : value) :
  segment name ->
  in_OPERATORS op = true ->
  parts_and_op (name ++ "__" ++ op) = ([name], op)
  /\ (getattr model name = None ->
      condition_for model (name ++ "__" ++ op) val = inl (no_attribute model name))
  /\ (getattr model name = Some Column ->
      condition_for model (name ++ "__" ++ op) val
      = apply_operator op (column_of model name) val)
  /\ forall p rel criterion,
       condition_for model (name ++ "__" ++ op) val = inr p -> p <> Any rel criterion.
Proof.
  intros Hname Hop.
  assert (Hparts : parts_and_op (name ++ "__" ++ op) = ([name], op)).
  { unfold parts_and_op, split_dunder.
    rewrite (@split_from_segment name EmptyString op Hname).
    rewrite (@split_from_last op EmptyString (operator_name_plain op Hop)). simpl.
    now rewrite Hop. }
  assert (Heq : condition_for model (name ++ "__" ++ op) val
                = match getattr model name with
                  | None => inl (no_attribute model name)
                  | Some _ => apply_operator op (column_of model name) val
                  end).
  { unfold condition_for. now rewrite contains_dunder_joined, Hparts. }
  split; [exact Hparts |].
  split; [intros Hnone; now rewrite Heq, Hnone |].
  split; [intros Hcol; now rewrite Heq, Hcol |].
  intros p rel criterion Hp. rewrite Heq in Hp.
  destruct (getattr model name); [| discriminate].
  exact (@operator_never_any op _ val p Hp rel criterion).
Qed.

(** [posts] is a relationship of [Author], and [posts__gt] is still read as
    the operator [gt] on the one segment [posts]; on the column [age] of
    [User] the key [age__gt] is the comparison. *)
Lemma X3_witness :
  parts_and_op "posts__gt" = (["posts"], "gt")
  /\ condition_for User "age__gt" (VInt 1) = inr (Gt (column_of User "age") (VInt 1)).
Proof.
  destruct (@X3_operator_suffix_is_never_a_hop Author "posts" "gt" (VInt 1)
              (conj eq_refl eq_refl) eq_refl) as [Hposts _].
  destruct (@X3_operator_suffix_is_never_a_hop User "age" "gt" (VInt 1)
              (conj eq_refl eq_refl) eq_refl) as (_ & _ & Hage & _).
  split; [exact Hposts | exact (Hage eq_refl)].
Defined.

Lemma operator_names (op : string) :
  in_OPERATORS op = true -> In op (map fst OPERATORS).
Proof.
  unfold in_OPERATORS, OPERATORS. cbn [Py.get map fst].
  repeat match goal with
         | |- context [String.eqb ?name op] =>
             destruct (String.eqb_spec name op) as [<- | _];
             [intros _; cbn; tauto |]
         end.
  discriminate.
Qed.

Lemma underscore_then_operator (op : string) :
  in_OPERATORS op = true ->
  in_OPERATORS (String "_" op) = false /\ contains_dunder (String "_" op) = false.
Proof.
  intros Hop. apply operator_names in Hop. cbn in Hop.
  repeat (destruct Hop as [<- | Hop]; [split; reflexivity |]).
  contradiction.
Qed.

(** X4.  A field whose name ends in an underscore cannot be filtered with an
    operator.  The key [name___op] made of the field [name_], the separator
    and an operator is split at the first two underscores, into [name] and
    [_op]: [_op] is no operator, so the key is read as a hop over a
    relationship called [name].  It compiles only if the model has such a
    relationship whose target has a field called [_op], and then to a
    condition on that target; the field [name_] is never looked at. *)
Theorem X4_trailing_underscore_field_never_takes_an_operator
    (model : mapped_class) (name op : string) (val : value) :
  segment name ->
  in_OPERATORS op = true ->
  parts_and_op ((name ++ "_") ++ "__" ++ op) = ([name; String "_" op], "exact")
  /\ ((exists e, condition_for model ((name ++ "_") ++ "__" ++ op) val = inl e)
      \/ (exists target,
            getattr model name = Some (Relationship target)
            /\ condition_for model ((name ++ "_") ++ "__" ++ op) val
               = inr (Any (column_of model name)
                        (Eq (column_of target (String "_" op)) val)))).
Proof.
  intros Hname Hop.
  destruct (underscore_then_operator op Hop) as [Hnot Hplain].
  assert (Hkey : (name ++ "_") ++ "__" ++ op = name ++ "__" ++ String "_" op).
  { rewrite append_assoc. reflexivity. }
  assert (Hparts : parts_and_op ((name ++ "_") ++ "__" ++ op)
                   = ([name; String "_" op], "exact")).
  { rewrite Hkey. unfold parts_and_op, split_dunder.
    rewrite (@split_from_segment name EmptyString (String "_" op) Hname).
    rewrite (@split_from_last (String "_" op) EmptyString Hplain).
    cbn [last append]. now rewrite Hnot. }
  split; [exact Hparts |].
  apply unknown_operator_two_segments; [| exact Hparts].
  rewrite Hkey. apply contains_dunder_joined.
Qed.

(** [Event] has the columns [type_] and [type]; [type___in] reaches neither
    with the operator [in]: it asks for a relationship [type]. *)
Lemma X4_witness :
  parts_and_op "type___in" = (["type"; "_in"], "exact")
  /\ exists msg, condition_for Event "type___in" (VList [VStr "a"]) = inl (AttributeError msg).
Proof.
  destruct (@X4_trailing_underscore_field_never_takes_an_operator Event "type" "in"
              (VList [VStr "a"]) (conj eq_refl eq_refl) eq_refl) as [Hparts _].
  split; [exact Hparts |]. eexists. reflexivity.
Defined.

(** ** The errors of the compiler *)

Lemma split_from_nonempty (s : string) : forall current, split_from current s <> [].
Proof.
  induction s as [| c s IH]; intros current; [discriminate |].
  destruct s as [| c' s']; [discriminate |].
  rewrite split_from_step.
  destruct (is_underscore c && is_underscore c'); [discriminate | apply IH].
Qed.

Lemma split_from_two (s : string) :
  forall current,
    contains_dunder s = true ->
    exists a b rest, split_from current s = a :: b :: rest.
Proof.
  induction s as [| c s IH]; intros current H; [discriminate |].
  destruct s as [| c' s']; [discriminate |].
  rewrite contains_dunder_step in H. rewrite split_from_step.
  destruct (is_underscore c && is_underscore c').
  - destruct (split_from EmptyString s') as [| b rest] eqn:Hs.
    + now destruct (split_from_nonempty s' EmptyString).
    + eauto.
  - apply IH. exact H.
Qed.

Lemma parts_nonempty (key : string) :
  contains_dunder key = true -> fst (parts_and_op key) <> [].
Proof.
  intros H. unfold parts_and_op, split_dunder.
  destruct (@split_from_two key EmptyString H) as (a & b & rest & ->).
  destruct (in_OPERATORS (last (a :: b :: rest) EmptyString)); discriminate.
Qed.

Lemma condition_for_raises (model : mapped_class) (key : string)
    (val : value) (e : exception) :
  condition_for model key val = inl e ->
  exists msg, e = AttributeError msg \/ e = InvalidRequestError msg.
Proof.
  unfold condition_for.
  destruct (contains_dunder key) eqn:Hd.
  - pose proof (parts_nonempty key Hd) as Hne.
    pose proof (parts_and_op_in_table key) as Hop.
    destruct (parts_and_op key) as [parts op]. simpl in Hne, Hop.
    destruct parts as [| a [| b rest]]; [contradiction | |].
    + destruct (getattr model a).
      * destruct (apply_operator_total op (column_of model a) val Hop) as [p ->].
        discriminate.
      * intros H. injection H as <-. unfold no_attribute. eauto.
    + destruct (getattr model a) as [[| target | target |] |]; simpl.
      * intros H. injection H as <-. eauto.
      * destruct (getattr target b).
        -- destruct (apply_operator_total op (column_of target b) val Hop) as [p ->].
           discriminate.
        -- intros H. injection H as <-. unfold no_attribute. eauto.
      * destruct (getattr target b).
        -- destruct (apply_operator_total op (column_of target b) val Hop) as [p ->].
           intros H. injection H as <-. eauto.
        -- intros H. injection H as <-. unfold no_attribute. eauto.
      * intros H. injection H as <-. unfold no_relationship. eauto.
      * intros H. injection H as <-. unfold no_relationship. eauto.
  - destruct (getattr model key); [discriminate |].
    intros H. injection H as <-. unfold no_attribute. eauto.
Qed.

(** X5.  The list accesses [parts[0]] and [parts[1]] and the table access
    [OPERATORS[op]] of the compiler never fail: a key that holds the
    separator splits into at least two segments, so at least one is left
    after the operator is popped and a second one whenever the first is not
    alone, and the operator is [exact] or a segment found in the table.
    Whatever the keys and values, a filter set never fails to compile with
    an IndexError or a KeyError. *)
Theorem X5_compiler_never_indexes_out_of_range
    (model : mapped_class) (f : fields_t) (e : exception) :
  (forall key, contains_dunder key = true ->
     (exists a b rest, split_dunder key = a :: b :: rest)
     /\ fst (parts_and_op key) <> []
     /\ in_OPERATORS (snd (parts_and_op key)) = true)
  /\ (__get_conditions model f = inl e ->
      (forall msg, e <> IndexError msg) /\ (forall msg, e <> KeyError msg)).
Proof.
  split.
  - intros key H. split; [| split].
    + unfold split_dunder. now apply split_from_two.
    + now apply parts_nonempty.
    + apply parts_and_op_in_table.
  - revert e. induction f as [| [k v] f IH]; simpl; intros e H; [discriminate |].
    destruct (condition_for model k v) as [e1 | c] eqn:Hk.
    + injection H as <-.
      destruct (@condition_for_raises _ _ _ _ Hk) as [msg [-> | ->]];
        split; intros; discriminate.
    + destruct (__get_conditions model f) as [e1 | cs]; [| discriminate].
      injection H as <-. now apply IH.
Qed.

(** The key made of the separator alone splits into two empty segments and
    fails on the empty relationship name, not on a list access. *)
Lemma X5_witness :
  __get_conditions User [("age__gte", VInt 1); ("__", VInt 2)]
  = inl (no_relationship User EmptyString)
  /\ (forall msg, no_relationship User EmptyString <> IndexError msg)
  /\ (forall msg, no_relationship User EmptyString <> KeyError msg).
Proof.
  destruct (@X5_compiler_never_indexes_out_of_range User
              [("age__gte", VInt 1); ("__", VInt 2)]
              (no_relationship User EmptyString)) as [_ H].
  split; [reflexivity | exact (H eq_refl)].
Defined.

(** ** Rows, pages and identities *)

Lemma insert_by_perm (leb : row -> row -> bool) (x : row) (l : list row) :
  Permutation (insert_by leb x l) (x :: l).
Proof.
  induction l as [| y l IH]; simpl; [apply Permutation_refl |].
  destruct (leb x y); [apply Permutation_refl |].
  eapply perm_trans;
    [apply perm_skip, IH | apply perm_swap].
Qed.

Lemma sort_by_perm (leb : row -> row -> bool) (l : list row) :
  Permutation (sort_by leb l) l.
Proof.
  induction l as [| x l IH]; simpl; [constructor |].
  eapply perm_trans;
    [apply insert_by_perm | apply perm_skip, IH].
Qed.

Lemma order_rows_perm (o : option ordering) (l : list row) :
  Permutation (order_rows o l) l.
Proof.
  destruct o as [[col | col] |]; simpl;
    [apply sort_by_perm | apply sort_by_perm | apply Permutation_refl].
Qed.

Lemma in_skipn {A : Type} (n : nat) : forall (l : list A) x, In x (skipn n l) -> In x l.
Proof.
  induction n as [| n IH]; intros [| a l] x H; simpl in *; auto.
Qed.

Lemma in_firstn {A : Type} (n : nat) : forall (l : list A) x, In x (firstn n l) -> In x l.
Proof.
  induction n as [| n IH]; intros [| a l] x H; simpl in *; try contradiction.
  destruct H as [-> | H]; auto.
Qed.

(** The page of a query: what is left of the ordered matches after OFFSET
    and LIMIT. *)
Lemma select_rows_sound (q : query) (t : list row) (r : row) :
  In r (select_rows q t) -> In r t /\ matches (q_where q) r = true.
Proof.
  unfold select_rows. intros H.
  assert (Hord : In r (order_rows (q_order_by q) (filter (matches (q_where q)) t))).
  { destruct (q_limit q) as [n |], (q_offset q) as [m |];
      repeat match goal with
             | H : In _ (firstn _ _) |- _ => apply in_firstn in H
             | H : In _ (skipn _ _) |- _ => apply in_skipn in H
             end; exact H. }
  apply (Permutation_in _ (order_rows_perm _ _)) in Hord.
  now apply filter_In in Hord.
Qed.

Lemma unique_length (l : list row) :
  forall seen, List.length (unique seen l) <= List.length l.
Proof.
  induction l as [| a l IH]; intros seen; simpl; [lia |].
  destruct (existsb (Nat.eqb (oid a)) seen); [specialize (IH seen) | specialize (IH (oid a :: seen))];
    simpl; lia.
Qed.

Lemma unique_all (l : list row) :
  forall seen,
    NoDup (map oid l) ->
    (forall r, In r l -> ~ In (oid r) seen) ->
    unique seen l = l.
Proof.
  induction l as [| a l IH]; intros seen Hnd Hseen; simpl; [reflexivity |].
  inversion Hnd as [| ? ? Hnotin Hnd']; subst.
  destruct (existsb (Nat.eqb (oid a)) seen) eqn:He.
  - apply existsb_exists in He as (o & Ho & Heq). apply Nat.eqb_eq in Heq. subst o.
    now destruct (Hseen a (or_introl eq_refl)).
  - f_equal. apply IH; [exact Hnd' |].
    intros r Hr [Heq | Hin].
    + apply Hnotin. rewrite Heq. now apply in_map.
    + apply (Hseen r); [now right | exact Hin].
Qed.

Lemma unique_head (l : list row) : hd_error (unique [] l) = hd_error l.
Proof. destruct l; reflexivity. Qed.

Lemma firstn_head {A : Type} (n : nat) (l : list A) :
  (1 <= n)%nat -> hd_error (firstn n l) = hd_error l.
Proof. destruct n; [lia |]. destruct l; reflexivity. Qed.

Lemma where_sound
    (self : repository) (s s' : session) (limit offset : Z)
    (sb : option string) (so : string) (jl ll : option (list string))
    (dds : bool) (f : fields_t) (found : list row) :
  where_ self limit offset sb so jl ll dds f s = (inr found, s') ->
  exists conditions,
    scoped_conditions self dds f = inr conditions
    /\ (forall r, In r found -> In r (table s) /\ matches conditions r = true)
    /\ (List.length found <= Z.to_nat limit)%nat
    /\ NoDup (map oid found)
    /\ table s' = table s.
Proof.
  intros H.
  destruct (__generate_query self limit offset sb so jl ll dds f) as [e | q] eqn:Hq.
  - rewrite (where_raises self s limit offset sb so jl ll dds f Hq) in H. discriminate.
  - rewrite (where_runs self s limit offset sb so jl ll dds f Hq) in H.
    injection H as <- <-.
    destruct (generate_query_where self limit offset sb so jl ll dds f Hq)
      as (Hc & Hl & _).
    exists (q_where q). split; [exact Hc |].
    destruct (unique_distinct (select_rows q (table s)) []) as [Hnd Hin].
    split; [| split; [| split; [exact Hnd | reflexivity]]].
    + intros r Hr. apply select_rows_sound. now apply Hin.
    + eapply Nat.le_trans; [apply unique_length |].
      unfold select_rows. rewrite Hl. apply firstn_le_length.
Qed.

(** X6.  For a page with [limit] and [offset] not negative (what a store
    does with a negative one differs from store to store): whenever [where]
    returns, every row it returns is a row of the table that satisfies every
    compiled condition, those of the default scope included unless it was
    disabled; it returns at most [limit] rows, no instance twice, and leaves
    the table as it was. *)
Theorem X6_where_returns_only_matching_rows
    (self : repository) (s s' : session) (limit offset : Z)
    (sb : option string) (so : string) (jl ll : option (list string))
    (dds : bool) (f : fields_t) (found : list row) :
  (0 <= limit)%Z ->
  (0 <= offset)%Z ->
  where_ self limit offset sb so jl ll dds f s = (inr found, s') ->
  exists conditions,
    scoped_conditions self dds f = inr conditions
    /\ (forall r, In r found -> In r (table s) /\ matches conditions r = true)
    /\ (List.length found <= Z.to_nat limit)%nat
    /\ NoDup (map oid found)
    /\ table s' = table s.
Proof. intros _ _. apply where_sound. Qed.

(** On the sample users, under the scope of active rows, the second page of
    size one sorted by age is Cid. *)
Lemma X6_witness :
  exists conditions,
    scoped_conditions active_users false [("age__gte", VInt 18)] = inr conditions
    /\ forall r, In r [user_row 2 "Cid" 80 true] -> matches conditions r = true.
Proof.
  destruct (@X6_where_returns_only_matching_rows active_users three_users
              (after_select three_users
                 (Select {| q_where := [Eq (column_of User "is_active") (VBool true);
                                        Ge (column_of User "age") (VInt 18)];
                            q_options := [];
                            q_order_by := Some (Asc (column_of User "age"));
                            q_limit := Some 1%Z; q_offset := Some 1%Z |}))
              1%Z 1%Z (Some "age") "asc" None None false [("age__gte", VInt 18)]
              [user_row 2 "Cid" 80 true] ltac:(lia) ltac:(lia) eq_refl)
    as (conditions & Hc & Hin & _).
  exists conditions. split; [exact Hc |].
  intros r Hr. now apply Hin.
Defined.

(** ** How the read operations relate *)

Lemma generate_query_limits (self : repository) (limit offset limit' offset' : Z)
    (sb : option string) (so : string) (jl ll : option (list string))
    (dds : bool) (f : fields_t) :
  __generate_query self limit offset sb so jl ll dds f
  = match __generate_query self limit' offset' sb so jl ll dds f with
    | inl e => inl e
    | inr q =>
        inr {| q_where := q_where q; q_options := q_options q;
               q_order_by := q_order_by q;
               q_limit := Some limit; q_offset := Some offset |}
    end.
Proof.
  unfold __generate_query.
  destruct (scoped_conditions self dds f) as [e | conditions]; [reflexivity |].
  destruct sb as [[| c rest] |]; try reflexivity.
  unfold _apply_order_by.
  destruct (getattr (model self) (String c rest)); [| reflexivity].
  destruct (String.eqb (lower so) "asc"); reflexivity.
Qed.

Lemma nodup_map_filter {A B : Type} (g : A -> B) (f : A -> bool) (l : list A) :
  NoDup (map g l) -> NoDup (map g (filter f l)).
Proof.
  induction l as [| a l IH]; simpl; intros H; [constructor |].
  inversion H as [| ? ? Hnotin Hnd]; subst.
  destruct (f a); simpl; [| now apply IH].
  constructor; [| now apply IH].
  intros Hin. apply Hnotin. apply in_map_iff in Hin as (x & Hx & Hfx).
  apply filter_In in Hfx as [Hfx _]. apply in_map_iff. eauto.
Qed.

Lemma filter_length_le {A : Type} (f : A -> bool) (l : list A) :
  (List.length (filter f l) <= List.length l)%nat.
Proof. induction l as [| a l IH]; simpl; [lia |]. destruct (f a); simpl; lia. Qed.

Lemma filter_length_mono {A : Type} (f g : A -> bool) (l : list A) :
  (forall x, f x = true -> g x = true) ->
  (List.length (filter f l) <= List.length (filter g l))%nat.
Proof.
  intros H. induction l as [| a l IH]; simpl; [lia |].
  destruct (f a) eqn:Hf.
  - rewrite (H a Hf). simpl. lia.
  - destruct (g a); simpl; lia.
Qed.

(** X7.  On a table whose rows are distinct instances, [count] returns the
    number of rows [where] returns for the same filters and scope when the
    page starts at offset 0 and [limit] is at least the size of the table,
    whatever the ordering asked for. *)
Theorem X7_count_is_the_length_of_where
    (self : repository) (s : session) (limit : Z)
    (sb : option string) (so : string) (jl ll : option (list string))
    (dds : bool) (f : fields_t) (found : list row) :
  NoDup (map oid (table s)) ->
  (Z.of_nat (List.length (table s)) <= limit)%Z ->
  fst (where_ self limit 0 sb so jl ll dds f s) = inr found ->
  fst (count self dds f s) = inr (Z.of_nat (List.length found)).
Proof.
  intros Hnd Hlimit H.
  destruct (__generate_query self limit 0 sb so jl ll dds f) as [e | q] eqn:Hq.
  - rewrite (where_raises self s limit 0 sb so jl ll dds f Hq) in H. discriminate.
  - rewrite (where_runs self s limit 0 sb so jl ll dds f Hq) in H.
    simpl in H. injection H as <-.
    destruct (generate_query_where self limit 0 sb so jl ll dds f Hq) as (Hc & Hl & Ho).
    rewrite (count_runs self s dds f Hc). simpl. f_equal. unfold matching. f_equal.
    unfold select_rows. rewrite Hl, Ho. simpl skipn.
    set (matched := filter (matches (q_where q)) (table s)).
    pose proof (order_rows_perm (q_order_by q) matched) as Hperm.
    rewrite firstn_all2.
    + rewrite unique_all.
      * symmetry. now apply Permutation_length.
      * apply (Permutation_NoDup (Permutation_sym (Permutation_map oid Hperm))).
        now apply nodup_map_filter.
      * intros r _ [].
    + rewrite (Permutation_length Hperm).
      pose proof (filter_length_le (matches (q_where q)) (table s)). fold matched in H. lia.
Qed.

Lemma X7_witness :
  fst (count active_users false [("age__gte", VInt 18)] three_users) = inr 2%Z.
Proof.
  assert (Hnd : NoDup (map oid (table three_users))).
  { simpl. repeat constructor; simpl; intuition discriminate. }
  assert (Hlimit : (Z.of_nat (List.length (table three_users)) <= 100)%Z) by (simpl; lia).
  exact (@X7_count_is_the_length_of_where active_users three_users 100 (Some "age") "desc"
           None None false [("age__gte", VInt 18)]
           [user_row 2 "Cid" 80 true; user_row 3 "Ann" 18 true] Hnd Hlimit eq_refl).
Defined.

(** X8.  [find_by] returns the row [where] would return first: for the same
    filters, scope and ordering, without joined eager loads (which [where]
    alone passes through [unique()]), and any page of [where] that starts at
    offset 0 and holds at least one row, both fail with the same error or
    [find_by] returns the head of the list [where] returns, and nothing when
    that list is empty. *)
Theorem X8_find_by_is_the_first_row_of_where
    (self : repository) (s : session) (limit : Z)
    (sb : option string) (so : string) (ll : option (list string))
    (dds : bool) (f : fields_t) :
  keyword_clash f = None ->
  (1 <= limit)%Z ->
  fst (find_by self sb so None ll dds f s)
  = match fst (where_ self limit 0 sb so None ll dds f s) with
    | inl e => inl e
    | inr found => inr (hd_error found)
    end.
Proof.
  intros Hk Hlimit.
  pose proof (generate_query_limits self 1 0 limit 0 sb so None ll dds f) as Hone.
  destruct (__generate_query self limit 0 sb so None ll dds f) as [e | q] eqn:Hq.
  - rewrite (where_raises self s limit 0 sb so None ll dds f Hq).
    now rewrite (find_by_raises self s sb so None ll dds f Hk Hone).
  - rewrite (where_runs self s limit 0 sb so None ll dds f Hq).
    rewrite (find_by_runs self s sb so None ll dds f Hk Hone).
    destruct (generate_query_where self limit 0 sb so None ll dds f Hq) as (_ & Hl & Ho).
    simpl. f_equal. rewrite unique_head.
    unfold select_rows. simpl. rewrite Hl, Ho. simpl skipn.
    rewrite (@firstn_head row (Z.to_nat limit)) by lia.
    now destruct (order_rows (q_order_by q) (filter (matches (q_where q)) (table s))).
Qed.

Lemma X8_witness :
  fst (find_by users (Some "age") "asc" None None false [] three_users)
  = inr (Some (user_row 3 "Ann" 18 true)).
Proof.
  assert (Hlimit : (1 <= 100)%Z) by lia.
  exact (@X8_find_by_is_the_first_row_of_where users three_users 100 (Some "age") "asc"
           None false [] eq_refl Hlimit).
Defined.

(** X9.  [find] is [find_by] on the one filter [id=id] with the empty
    result turned into NoResultFound for that id: the two run the same
    select and leave the same session, and [find] fails exactly when
    [find_by] fails or finds nothing. *)
Theorem X9_find_is_find_by_on_the_id
    (self : repository) (s : session) (id : value)
    (sb : option string) (so : string) (jl ll : option (list string)) (dds : bool) :
  find self id sb so jl ll dds s
  = (match fst (find_by self sb so jl ll dds [("id", id)] s) with
     | inl e => inl e
     | inr None => inl (not_found_id self id)
     | inr (Some instance) => inr instance
     end, snd (find_by self sb so jl ll dds [("id", id)] s)).
Proof.
  assert (Hk : keyword_clash [("id", id)] = None) by reflexivity.
  destruct (__generate_query self 1 0 sb so jl ll dds [("id", id)]) as [e | q] eqn:Hq.
  - rewrite (find_raises self s id sb so jl ll dds Hq).
    now rewrite (find_by_raises self s sb so jl ll dds [("id", id)] Hk Hq).
  - rewrite (find_runs self s id sb so jl ll dds Hq).
    now rewrite (find_by_runs self s sb so jl ll dds [("id", id)] Hk Hq).
Qed.

Lemma sorts_on_column_orderable (self : repository) (sb : option string) :
  sorts_on_column self sb -> orderable self sb.
Proof.
  destruct sb as [[| c rest] |]; simpl; [trivial | congruence | trivial].
Qed.

(** X10.  [exists] says whether [find_by] would find a row: for filters
    [find_by] accepts, a [sorted_by] that is absent, empty or a column of
    the model, and no joined eager loads, both fail with the same error, or
    [exists] returns true exactly when [find_by] returns a row. *)
Theorem X10_exists_iff_find_by_finds
    (self : repository) (s : session)
    (sb : option string) (so : string) (ll : option (list string))
    (dds : bool) (f : fields_t) :
  keyword_clash f = None ->
  sorts_on_column self sb ->
  fst (exists_ self dds f s)
  = match fst (find_by self sb so None ll dds f s) with
    | inl e => inl e
    | inr (Some _) => inr true
    | inr None => inr false
    end.
Proof.
  intros Hk Ho. apply sorts_on_column_orderable in Ho.
  destruct (scoped_conditions self dds f) as [e | conditions] eqn:Hc.
  - rewrite (exists_raises self s dds f Hc).
    now rewrite (find_by_raises self s sb so None ll dds f Hk
                   (generate_query_scope_failure self 1 0 sb so None ll dds f Hc)).
  - destruct (generate_query_built self 1 0 sb so None ll dds f Hc Ho)
      as (q & Hq & Hw & Hl & Hoff & _).
    rewrite (exists_runs self s dds f Hc).
    rewrite (find_by_runs self s sb so None ll dds f Hk Hq). simpl.
    unfold select_rows, matching. rewrite Hl, Hoff, Hw. simpl skipn. simpl firstn.
    pose proof (order_rows_perm (q_order_by q) (filter (matches conditions) (table s)))
      as Hperm.
    apply Permutation_length in Hperm. rewrite <- Hperm.
    destruct (order_rows (q_order_by q) (filter (matches conditions) (table s)));
      reflexivity.
Qed.

Lemma X10_witness :
  fst (exists_ users false [("name", VStr "Zed")] three_users) = inr false
  /\ fst (exists_ users false [("name", VStr "Ann")] three_users) = inr true.
Proof.
  split.
  - exact (@X10_exists_iff_find_by_finds users three_users (Some "age") "desc" None false
             [("name", VStr "Zed")] eq_refl eq_refl).
  - exact (@X10_exists_iff_find_by_finds users three_users (Some "age") "desc" None false
             [("name", VStr "Ann")] eq_refl eq_refl).
Defined.

(** X11.  The default scope only narrows: whenever the scoped [count]
    returns, the [count] with the default scope disabled returns too, and
    at least as much. *)
Theorem X11_default_scope_only_narrows
    (self : repository) (s : session) (f : fields_t) (n : Z) :
  fst (count self false f s) = inr n ->
  exists m, fst (count self true f s) = inr m /\ (n <= m)%Z.
Proof.
  intros H.
  destruct (scoped_conditions self false f) as [e | scoped] eqn:Hs.
  - rewrite (count_raises self s false f Hs) in H. discriminate.
  - rewrite (count_runs self s false f Hs) in H. injection H as <-.
    unfold scoped_conditions in Hs. simpl in Hs.
    destruct (__get_conditions (model self) (default_scope self)) as [e | scope];
      [discriminate |].
    destruct (__get_conditions (model self) f) as [e | conditions] eqn:Hf;
      [discriminate |].
    injection Hs as <-.
    assert (Hu : scoped_conditions self true f = inr conditions).
    { unfold scoped_conditions. simpl. now rewrite Hf. }
    exists (matching conditions s). split; [now rewrite (count_runs self s true f Hu) |].
    unfold matching. apply Nat2Z.inj_le. apply filter_length_mono.
    intros r Hr. rewrite matches_app in Hr. now apply andb_true_iff in Hr.
Qed.

Lemma X11_witness :
  exists m, fst (count active_users true [] three_users) = inr m /\ (2 <= m)%Z.
Proof.
  exact (@X11_default_scope_only_narrows active_users three_users [] 2%Z eq_refl).
Defined.

(** X12.  Let the updates be some columns of the model (an update statement
    that sets nothing, or a name that is no column, is refused by the store,
    which this development does not model).  The number [update_all] and
    [destroy_all] return is what [count] returns for the same filters with
    the default scope disabled, taken before the statement runs; and they
    fail with the error [count] fails with. *)
Theorem X12_bulk_rowcount_is_the_unscoped_count
    (self : repository) (s : session) (updates f : fields_t) :
  updates <> [] ->
  (forall k, In k (map fst updates) -> getattr (model self) k = Some Column) ->
  fst (update_all self updates f s) = fst (count self true f s)
  /\ fst (destroy_all self f s) = fst (count self true f s).
Proof.
  intros _ _.
  assert (Hs : scoped_conditions self true f
               = match __get_conditions (model self) f with
                 | inl e => inl e
                 | inr conditions => inr conditions
                 end).
  { unfold scoped_conditions. simpl.
    destruct (__get_conditions (model self) f); reflexivity. }
  destruct (__get_conditions (model self) f) as [e | conditions] eqn:Hf.
  - rewrite (update_all_raises self s updates f Hf), (destroy_all_raises self s f Hf).
    now rewrite (count_raises self s true f Hs).
  - rewrite (update_all_runs self s updates f Hf), (destroy_all_runs self s f Hf).
    now rewrite (count_runs self s true f Hs).
Qed.

(** Marking everyone aged 30 or more as inactive touches the two rows the
    unscoped count finds; so does the scoped repository, whose count with
    the scope enabled finds one. *)
Lemma X12_witness :
  fst (update_all active_users [("is_active", VBool false)] [("age__gte", VInt 30)]
         three_users) = inr 2%Z
  /\ fst (count active_users false [("age__gte", VInt 30)] three_users) = inr 1%Z.
Proof.
  assert (Hne : [("is_active", VBool false)] <> ([] : fields_t)) by discriminate.
  assert (Hcols : forall k, In k (map fst [("is_active", VBool false)]) ->
                    getattr (model active_users) k = Some Column).
  { intros k [<- | []]. reflexivity. }
  destruct (@X12_bulk_rowcount_is_the_unscoped_count active_users three_users
              [("is_active", VBool false)] [("age__gte", VInt 30)] Hne Hcols)
    as [Hupdate _].
  split; [rewrite Hupdate |]; reflexivity.
Defined.

(** ** The write operations when they succeed *)

Lemma find_after_replace (instance : row) (t : list row) (r : row) :
  In r t -> oid instance = oid r ->
  List.find (fun x => Nat.eqb (oid x) (oid instance))
    (map (fun x => if Nat.eqb (oid x) (oid instance) then instance else x) t)
  = Some instance.
Proof.
  intros Hin Hoid. induction t as [| x t IH]; [contradiction |].
  simpl. destruct (Nat.eqb (oid x) (oid instance)) eqn:Hx.
  - now rewrite Nat.eqb_refl.
  - rewrite Hx. apply IH. destruct Hin as [-> | Hin]; [| exact Hin].
    rewrite Hoid, Nat.eqb_refl in Hx. discriminate.
Qed.

Lemma found_in_table (q : query) (t : list row) (r : row) :
  hd_error (select_rows q t) = Some r -> In r t /\ matches (q_where q) r = true.
Proof.
  intros H. apply select_rows_sound.
  destruct (select_rows q t) as [| x l]; [discriminate |].
  injection H as ->. now left.
Qed.

(** What [find] with the defaults found, read back from its outcome. *)
Lemma lookup_found (self : repository) (s : session) (id : value) (r : row) :
  fst (find self id None "asc" None None false s) = inr r ->
  exists q,
    lookup_query self id = inr q
    /\ hd_error (select_rows q (table s)) = Some r.
Proof.
  intros H. unfold lookup_query.
  destruct (__generate_query self 1 0 None "asc" None None false [("id", id)])
    as [e | q] eqn:Hq.
  - rewrite (find_raises self s id None "asc" None None false Hq) in H. discriminate.
  - rewrite (find_runs self s id None "asc" None None false Hq) in H.
    exists q. split; [reflexivity |].
    destruct (hd_error (select_rows q (table s))); [| discriminate].
    simpl in H. now injection H as ->.
Qed.

Lemma update_found (self : repository) (s : session) (id : value)
    (update_params : fields_t) (q : query) (r : row) :
  lookup_query self id = inr q ->
  hd_error (select_rows q (table s)) = Some r ->
  update self id update_params s
  = (inr (assign update_params r),
     {| table := map (fun x => if Nat.eqb (oid x) (oid r)
                               then assign update_params r else x) (table s);
        log := (log s ++ [Executed (Select q); Committed; Refreshed (oid r)])%list |}).
Proof.
  intros Hq Hr.
  destruct (found_in_table q (table s) Hr) as [Hin _].
  destruct (assign_identity update_params r) as [Hoid _].
  unfold update, bind.
  rewrite (find_runs self s id None "asc" None None false Hq), Hr.
  unfold commit, refresh. simpl.
  rewrite (find_after_replace (assign update_params r) (table s) r Hin Hoid).
  rewrite Hoid, <- !app_assoc. reflexivity.
Qed.

Lemma destroy_found (self : repository) (s : session) (id : value)
    (q : query) (r : row) :
  lookup_query self id = inr q ->
  hd_error (select_rows q (table s)) = Some r ->
  destroy self id s
  = (inr tt,
     {| table := filter (fun x => negb (Nat.eqb (oid x) (oid r))) (table s);
        log := (log s ++ [Executed (Select q); MarkedDeleted (oid r); Committed])%list |}).
Proof.
  intros Hq Hr. unfold destroy, bind.
  rewrite (find_runs self s id None "asc" None None false Hq), Hr.
  unfold commit, delete. simpl. rewrite <- !app_assoc. reflexivity.
Qed.

(** X13.  Let the fields to set be columns of the model (a name that is no
    column is set on the Python object alone, which the table of this
    development does not tell apart).  When [find] finds [r] for the id,
    [update] returns that instance with each given field set to its given
    value and every other field, its identity and its related rows as they
    were; in the table the rows of that instance are replaced by it and
    every other row is untouched; and the session saw one select, one
    commit and one refresh. *)
Theorem X13_update_sets_the_given_fields_only
    (self : repository) (s : session) (id : value) (update_params : fields_t) (r : row) :
  fst (find self id None "asc" None None false s) = inr r ->
  NoDup (map fst update_params) ->
  (forall k, In k (map fst update_params) -> getattr (model self) k = Some Column) ->
  exists q updated,
    update self id update_params s
    = (inr updated,
       {| table := map (fun x => if Nat.eqb (oid x) (oid r) then updated else x) (table s);
          log := (log s ++ [Executed (Select q); Committed; Refreshed (oid r)])%list |})
    /\ (forall k v, In (k, v) update_params -> Py.get (fields updated) k = Some v)
    /\ (forall k, ~ In k (map fst update_params) ->
          Py.get (fields updated) k = Py.get (fields r) k)
    /\ oid updated = oid r
    /\ related updated = related r
    /\ (forall x, In x (table s) -> oid x <> oid r ->
          In x (table (snd (update self id update_params s)))).
Proof.
  intros Hfind Hnd _.
  destruct (lookup_found self s id Hfind) as (q & Hq & Hr).
  pose proof (update_found self s id update_params Hq Hr) as Hupdate.
  destruct (assign_identity update_params r) as [Hoid Hrel].
  exists q, (assign update_params r).
  split; [exact Hupdate |].
  split; [intros k v Hin; now apply get_assign_in |].
  split; [intros k Hk; now apply get_assign_other |].
  split; [exact Hoid |]. split; [exact Hrel |].
  intros x Hx Hne. rewrite Hupdate. simpl.
  apply in_map_iff. exists x. split; [| exact Hx].
  destruct (Nat.eqb_spec (oid x) (oid r)); [contradiction | reflexivity].
Qed.

(** Renaming Cid, the active user with id 2: the name changes, the age
    stays. *)
Lemma X13_witness :
  exists updated,
    fst (update active_users (VInt 2) [("name", VStr "Sid")] three_users) = inr updated
    /\ Py.get (fields updated) "name" = Some (VStr "Sid")
    /\ Py.get (fields updated) "age" = Some (VInt 80).
Proof.
  assert (Hnd : NoDup (map fst [("name", VStr "Sid")])).
  { simpl. repeat constructor. intros []. }
  assert (Hcols : forall k, In k (map fst [("name", VStr "Sid")]) ->
                    getattr (model active_users) k = Some Column).
  { intros k [<- | []]. reflexivity. }
  destruct (@X13_update_sets_the_given_fields_only active_users three_users (VInt 2)
              [("name", VStr "Sid")] (user_row 2 "Cid" 80 true) eq_refl Hnd Hcols)
    as (q & updated & Hupdate & Hset & Hkept & _).
  exists updated. split; [now rewrite Hupdate |]. split.
  - apply Hset. now left.
  - rewrite Hkept; [reflexivity |]. simpl. intros [H | []]. discriminate.
Defined.

Lemma scoped_by_parts (self : repository) (dds : bool) (f : fields_t)
    (scoped : list predicate) :
  scoped_conditions self dds f = inr scoped ->
  exists scope conditions,
    (if dds then inr [] else __get_conditions (model self) (default_scope self)) = inr scope
    /\ __get_conditions (model self) f = inr conditions
    /\ scoped = (scope ++ conditions)%list.
Proof.
  unfold scoped_conditions. destruct dds; simpl.
  - destruct (__get_conditions (model self) f) as [e | c]; [discriminate |].
    intros H. injection H as <-. exists [], c. auto.
  - destruct (__get_conditions (model self) (default_scope self)) as [e | d];
      [discriminate |].
    destruct (__get_conditions (model self) f) as [e | c]; [discriminate |].
    intros H. injection H as <-. exists d, c. auto.
Qed.

Lemma id_conditions (model : mapped_class) (id : value) (conditions : list predicate) :
  __get_conditions model [("id", id)] = inr conditions ->
  conditions = [Eq (column_of model "id") id].
Proof.
  simpl. unfold condition_for. simpl.
  destruct (getattr model "id"); [| discriminate].
  intros H. now injection H as <-.
Qed.

Lemma holds_id (model : mapped_class) (id : value) (r : row) :
  matches [Eq (column_of model "id") id] r = true
  <-> field_value (fields r) (column_of model "id") = id.
Proof.
  unfold matches. simpl. rewrite andb_true_r. apply value_eqb_eq.
Qed.

(** X14.  When [find] finds [r] for the id, [destroy] returns normally; the
    rows of that instance are gone from the table and every other row is
    still there, in its place; the session saw one select, one delete and
    one commit.  If moreover no other instance carries that id, the id can
    no longer be found afterwards, with or without the default scope. *)
Theorem X14_destroy_removes_the_found_row_only
    (self : repository) (s : session) (id : value) (r : row) :
  fst (find self id None "asc" None None false s) = inr r ->
  exists q,
    destroy self id s
    = (inr tt,
       {| table := filter (fun x => negb (Nat.eqb (oid x) (oid r))) (table s);
          log := (log s ++ [Executed (Select q); MarkedDeleted (oid r); Committed])%list |})
    /\ ~ In r (table (snd (destroy self id s)))
    /\ (forall x, In x (table s) -> oid x <> oid r ->
          In x (table (snd (destroy self id s))))
    /\ ((forall x, In x (table s) ->
           field_value (fields x) (column_of (model self) "id") = id -> oid x = oid r) ->
        forall dds so jl ll,
          fst (find self id None so jl ll dds (snd (destroy self id s)))
          = inl (not_found_id self id)).
Proof.
  intros Hfind.
  destruct (lookup_found self s id Hfind) as (q & Hq & Hr).
  pose proof (destroy_found self s id Hq Hr) as Hdestroy.
  exists q. split; [exact Hdestroy |]. rewrite Hdestroy. simpl.
  split; [| split].
  - intros Hin. apply filter_In in Hin as [_ Hne].
    rewrite Nat.eqb_refl in Hne. discriminate.
  - intros x Hx Hne. apply filter_In. split; [exact Hx |].
    destruct (Nat.eqb_spec (oid x) (oid r)); [contradiction | reflexivity].
  - intros Hpk dds so jl ll.
    destruct (generate_query_where self 1 0 None "asc" None None false [("id", id)] Hq)
      as (Hscoped & _).
    destruct (scoped_by_parts self false [("id", id)] Hscoped)
      as (scope & idc & Hscope & Hidc & _).
    pose proof (id_conditions (model self) id Hidc) as Hlist. subst idc.
    assert (Hcompiled : scoped_conditions self dds [("id", id)]
                        = inr ((if dds then [] else scope)
                               ++ [Eq (column_of (model self) "id") id])%list).
    { unfold scoped_conditions. rewrite Hidc.
      destruct dds; simpl; [reflexivity |].
      simpl in Hscope. now rewrite Hscope. }
    destruct (generate_query_built self 1 0 None so jl ll dds [("id", id)] Hcompiled I)
      as (q' & Hq' & Hw' & _).
    rewrite (find_runs self _ id None so jl ll dds Hq'). simpl table.
    rewrite select_rows_none; [reflexivity |].
    apply filter_none. intros x Hx. apply filter_In in Hx as [Hx Hne].
    rewrite Hw', matches_app.
    destruct (matches [Eq (column_of (model self) "id") id] x) eqn:Hm;
      [| apply andb_false_r].
    apply holds_id in Hm. rewrite (Hpk x Hx Hm), Nat.eqb_refl in Hne. discriminate.
Qed.

(** Destroying Cid, the active user with id 2: the other two rows stay, and
    id 2 is no longer found even with the scope disabled. *)
Lemma X14_witness :
  table (snd (destroy active_users (VInt 2) three_users))
  = [user_row 1 "Bob" 30 false; user_row 3 "Ann" 18 true]
  /\ fst (find active_users (VInt 2) None "asc" None None true
            (snd (destroy active_users (VInt 2) three_users)))
     = inl (NoResultFound "User with id 2 not found.").
Proof.
  destruct (@X14_destroy_removes_the_found_row_only active_users three_users (VInt 2)
              (user_row 2 "Cid" 80 true) eq_refl)
    as (q & Hdestroy & _ & _ & Hgone).
  split.
  - rewrite Hdestroy. reflexivity.
  - apply Hgone. intros x [<- | [<- | [<- | []]]] H; try reflexivity; discriminate.
Defined.

(** ** The bulk operations when they succeed *)

(** X15.  Let the filters compile and the updates name some columns of the
    model, each once.  [update_all] keeps every row in its place with its
    identity; a row that did not satisfy the filters is untouched; and a
    row that satisfies the filters afterwards carries every updated field
    with its new value.  So whatever a later [where] on the same filters
    returns shows the new values. *)
Theorem X15_update_all_changes_matched_rows_only
    (self : repository) (s : session) (updates f : fields_t)
    (conditions : list predicate) :
  __get_conditions (model self) f = inr conditions ->
  updates <> [] ->
  NoDup (map fst updates) ->
  (forall k, In k (map fst updates) -> getattr (model self) k = Some Column) ->
  map oid (table (snd (update_all self updates f s))) = map oid (table s)
  /\ (forall r, In r (table s) -> matches conditions r = false ->
        In r (table (snd (update_all self updates f s))))
  /\ (forall r', In r' (table (snd (update_all self updates f s))) ->
        matches conditions r' = true ->
        forall k v, In (k, v) updates -> Py.get (fields r') k = Some v)
  /\ (forall limit offset sb so jl ll dds found s'',
        where_ self limit offset sb so jl ll dds f (snd (update_all self updates f s))
        = (inr found, s'') ->
        forall r' k v, In r' found -> In (k, v) updates ->
          Py.get (fields r') k = Some v).
Proof.
  intros Hf _ Hnd _.
  rewrite (update_all_runs self s updates f Hf). simpl.
  assert (Hupdated : forall r', In r' (map (fun r => if matches conditions r
                                                    then assign updates r else r) (table s)) ->
            matches conditions r' = true ->
            forall k v, In (k, v) updates -> Py.get (fields r') k = Some v).
  { intros r' Hin Hm k v Hkv. apply in_map_iff in Hin as (r & Hr & _).
    destruct (matches conditions r) eqn:Hmr.
    - subst r'. now apply get_assign_in.
    - subst r'. congruence. }
  split; [| split; [| split]].
  - rewrite map_map. apply map_ext. intros r.
    destruct (matches conditions r); [apply assign_identity | reflexivity].
  - intros r Hr Hm. apply in_map_iff. exists r. now rewrite Hm.
  - exact Hupdated.
  - intros limit offset sb so jl ll dds found s'' Hwhere r' k v Hr' Hkv.
    destruct (where_sound self _ limit offset sb so jl ll dds f Hwhere)
      as (scoped & Hscoped & Hsound & _).
    destruct (Hsound r' Hr') as [Hin Hm]. simpl in Hin.
    destruct (scoped_by_parts self dds f Hscoped) as (scope & c & _ & Hc & ->).
    rewrite Hf in Hc. injection Hc as <-.
    rewrite matches_app in Hm. apply andb_true_iff in Hm as [_ Hm].
    exact (Hupdated r' Hin Hm k v Hkv).
Qed.

(** Marking everyone aged 30 or more as inactive: Ann, who is 18, is
    untouched. *)
Lemma X15_witness :
  In (user_row 3 "Ann" 18 true)
    (table (snd (update_all users [("is_active", VBool false)] [("age__gte", VInt 30)]
                   three_users))).
Proof.
  assert (Hne : [("is_active", VBool false)] <> ([] : fields_t)) by discriminate.
  assert (Hnd : NoDup (map fst [("is_active", VBool false)])).
  { simpl. repeat constructor. intros []. }
  assert (Hcols : forall k, In k (map fst [("is_active", VBool false)]) ->
                    getattr (model users) k = Some Column).
  { intros k [<- | []]. reflexivity. }
  destruct (@X15_update_all_changes_matched_rows_only users three_users
              [("is_active", VBool false)] [("age__gte", VInt 30)]
              [Ge (column_of User "age") (VInt 30)] eq_refl Hne Hnd Hcols)
    as (_ & Hkept & _).
  apply Hkept; [simpl; tauto | reflexivity].
Defined.

(** X16.  Let the filters compile.  After [destroy_all] the table holds
    exactly the rows that did not satisfy the filters, in their order; no
    row satisfies the filters any more: [count] on the same filters returns
    0 with the default scope disabled, and 0 whenever it returns with the
    scope enabled, [exists] returns false, and a second [destroy_all]
    deletes nothing. *)
Theorem X16_destroy_all_leaves_no_match
    (self : repository) (s : session) (f : fields_t) (conditions : list predicate) :
  __get_conditions (model self) f = inr conditions ->
  table (snd (destroy_all self f s))
  = filter (fun r => negb (matches conditions r)) (table s)
  /\ (forall r, In r (table (snd (destroy_all self f s)))
                <-> In r (table s) /\ matches conditions r = false)
  /\ fst (count self true f (snd (destroy_all self f s))) = inr 0%Z
  /\ (forall n, fst (count self false f (snd (destroy_all self f s))) = inr n -> n = 0%Z)
  /\ fst (exists_ self true f (snd (destroy_all self f s))) = inr false
  /\ fst (destroy_all self f (snd (destroy_all self f s))) = inr 0%Z.
Proof.
  intros Hf.
  rewrite (destroy_all_runs self s f Hf). simpl.
  set (s' := {| table := filter (fun r => negb (matches conditions r)) (table s);
                log := (log s ++ [Executed (Delete conditions); Committed])%list |}).
  assert (Hnone : forall scope,
            filter (matches (scope ++ conditions)) (table s') = []).
  { intros scope. apply filter_none. intros r Hr. simpl in Hr.
    apply filter_In in Hr as [_ Hr]. rewrite matches_app.
    apply negb_true_iff in Hr. rewrite Hr. apply andb_false_r. }
  assert (Hu : scoped_conditions self true f = inr conditions).
  { unfold scoped_conditions. simpl. now rewrite Hf. }
  split; [reflexivity |].
  split.
  { intros r. rewrite filter_In, negb_true_iff. reflexivity. }
  split.
  { rewrite (count_runs self s' true f Hu). unfold matching.
    now rewrite (Hnone [] : filter (matches conditions) (table s') = []). }
  split.
  { intros n Hn.
    destruct (scoped_conditions self false f) as [e | scoped] eqn:Hs.
    - rewrite (count_raises self s' false f Hs) in Hn. discriminate.
    - rewrite (count_runs self s' false f Hs) in Hn. injection Hn as <-.
      destruct (scoped_by_parts self false f Hs) as (scope & c & _ & Hc & ->).
      rewrite Hf in Hc. injection Hc as <-.
      unfold matching. now rewrite (Hnone scope). }
  split.
  { rewrite (exists_runs self s' true f Hu). unfold matching.
    now rewrite (Hnone [] : filter (matches conditions) (table s') = []). }
  rewrite (destroy_all_runs self s' f Hf). cbn [fst]. unfold matching.
  now rewrite (Hnone [] : filter (matches conditions) (table s') = []).
Qed.

Lemma X16_witness :
  table (snd (destroy_all users [("age__gte", VInt 30)] three_users))
  = [user_row 3 "Ann" 18 true].
Proof.
  destruct (@X16_destroy_all_leaves_no_match users three_users [("age__gte", VInt 30)]
              [Ge (column_of User "age") (VInt 30)] eq_refl) as (Htable & _).
  rewrite Htable. reflexivity.
Defined.

(** ** Failing writes and sound lookups *)

(** X17.  A write operation that raises has changed nothing and committed
    nothing: [update_all] and [destroy_all] leave the session as it was, and
    [update] and [destroy] leave it as it was or with the select of their
    lookup as the only new event. *)
Theorem X17_failed_write_changes_nothing
    (self : repository) (s : session) (id : value)
    (update_params updates f : fields_t) (e : exception) :
  (fst (update self id update_params s) = inl e ->
     snd (update self id update_params s) = s
     \/ exists q, snd (update self id update_params s) = after_select s (Select q))
  /\ (fst (destroy self id s) = inl e ->
      snd (destroy self id s) = s
      \/ exists q, snd (destroy self id s) = after_select s (Select q))
  /\ (fst (update_all self updates f s) = inl e -> snd (update_all self updates f s) = s)
  /\ (fst (destroy_all self f s) = inl e -> snd (destroy_all self f s) = s).
Proof.
  assert (Hempty : forall q, hd_error (select_rows q (table s)) = None ->
                     select_rows q (table s) = []).
  { intros q H. destruct (select_rows q (table s)); [reflexivity | discriminate]. }
  split; [| split; [| split]].
  - destruct (lookup_query self id) as [e0 | q] eqn:Hq.
    + rewrite (update_raises self s id update_params Hq). now left.
    + destruct (hd_error (select_rows q (table s))) as [r |] eqn:Hr.
      * rewrite (update_found self s id update_params Hq Hr). discriminate.
      * rewrite (update_not_found self s id update_params Hq (Hempty q Hr)).
        intros _. right. exists q. reflexivity.
  - destruct (lookup_query self id) as [e0 | q] eqn:Hq.
    + rewrite (destroy_raises self s id Hq). now left.
    + destruct (hd_error (select_rows q (table s))) as [r |] eqn:Hr.
      * rewrite (destroy_found self s id Hq Hr). discriminate.
      * rewrite (destroy_not_found self s id Hq (Hempty q Hr)).
        intros _. right. exists q. reflexivity.
  - destruct (__get_conditions (model self) f) as [e0 | c] eqn:Hf.
    + now rewrite (update_all_raises self s updates f Hf).
    + rewrite (update_all_runs self s updates f Hf). discriminate.
  - destruct (__get_conditions (model self) f) as [e0 | c] eqn:Hf.
    + now rewrite (destroy_all_raises self s f Hf).
    + rewrite (destroy_all_runs self s f Hf). discriminate.
Qed.

Lemma X17_witness :
  snd (update_all users [("age", VInt 1)] [("nickname", VStr "x")] three_users)
  = three_users.
Proof.
  destruct (@X17_failed_write_changes_nothing users three_users (VInt 1) []
              [("age", VInt 1)] [("nickname", VStr "x")] (no_attribute User "nickname"))
    as (_ & _ & Hbulk & _).
  exact (Hbulk eq_refl).
Defined.

(** X18.  The row [find] returns is a row of the table whose [id] field is
    the id asked for, and it satisfies the conditions of the default scope
    unless the scope was disabled. *)
Theorem X18_find_returns_the_row_with_the_id
    (self : repository) (s : session) (id : value)
    (sb : option string) (so : string) (jl ll : option (list string))
    (dds : bool) (r : row) :
  fst (find self id sb so jl ll dds s) = inr r ->
  In r (table s)
  /\ field_value (fields r) (column_of (model self) "id") = id
  /\ (dds = false ->
      exists scope,
        __get_conditions (model self) (default_scope self) = inr scope
        /\ matches scope r = true).
Proof.
  intros H.
  destruct (__generate_query self 1 0 sb so jl ll dds [("id", id)]) as [e | q] eqn:Hq.
  - rewrite (find_raises self s id sb so jl ll dds Hq) in H. discriminate.
  - rewrite (find_runs self s id sb so jl ll dds Hq) in H.
    destruct (hd_error (select_rows q (table s))) as [x |] eqn:Hx; [| discriminate].
    simpl in H. injection H as ->.
    destruct (found_in_table q (table s) Hx) as [Hin Hm].
    destruct (generate_query_where self 1 0 sb so jl ll dds [("id", id)] Hq) as (Hs & _).
    destruct (scoped_by_parts self dds [("id", id)] Hs) as (scope & c & Hscope & Hc & Heq).
    pose proof (id_conditions (model self) id Hc) as ->.
    rewrite Heq, matches_app in Hm. apply andb_true_iff in Hm as [Hms Hmi].
    split; [exact Hin |]. split; [now apply holds_id |].
    intros ->. exists scope. split; [exact Hscope | exact Hms].
Qed.

Lemma X18_witness :
  field_value (fields (user_row 2 "Cid" 80 true)) (column_of User "id") = VInt 2.
Proof.
  destruct (@X18_find_returns_the_row_with_the_id active_users three_users (VInt 2)
              None "asc" None None false (user_row 2 "Cid" 80 true) eq_refl)
    as (_ & Hid & _).
  exact Hid.
Defined.

(** ** Eager-load hints *)

(** X19.  The eager-load parameters add their directives and change nothing
    else: the query built with them is the query built without them, with
    one [joinedload] per listed model in the order given, followed by one
    [lazyload] per listed model in the order given; an empty list is the
    same as no list, and the outcome fails with the same error either
    way. *)
Theorem X19_eager_loads_only_add_their_directives
    (self : repository) (limit offset : Z) (sb : option string) (so : string)
    (jl ll : option (list string)) (dds : bool) (f : fields_t) :
  __generate_query self limit offset sb so jl ll dds f
  = match __generate_query self limit offset sb so None None dds f with
    | inl e => inl e
    | inr q =>
        inr {| q_where := q_where q;
               q_options := (map Joinedload (listed jl) ++ map Lazyload (listed ll))%list;
               q_order_by := q_order_by q;
               q_limit := q_limit q; q_offset := q_offset q |}
    end.
Proof.
  unfold __generate_query.
  destruct (scoped_conditions self dds f) as [e | conditions]; [reflexivity |].
  assert (Hopts : forall q, q_options q = [] ->
            with_options (with_options q Joinedload jl) Lazyload ll
            = {| q_where := q_where q;
                 q_options := (map Joinedload (listed jl) ++ map Lazyload (listed ll))%list;
                 q_order_by := q_order_by q;
                 q_limit := q_limit q; q_offset := q_offset q |}).
  { intros [w o ob l off] Ho. simpl in Ho. subst o.
    destruct jl as [[| j js] |], ll as [[| m ms] |]; simpl; rewrite ?app_nil_r; reflexivity. }
  rewrite Hopts by reflexivity. simpl with_options.
  destruct sb as [[| c rest] |]; try reflexivity.
  unfold _apply_order_by.
  destruct (getattr (model self) (String c rest)); [| reflexivity].
  destruct (String.eqb (lower so) "asc"); reflexivity.
Qed.
